(** * OkapiLib: skid-steer kinematics model, PID chassis controller, builder

    A shallow embedding of
    - [SkidSteerModel]          (okapi/api/chassis/model/skidSteerModel.cpp),
    - [ChassisControllerPID]    (okapi/api/chassis/controller/chassisControllerPid.cpp),
    - [ChassisControllerBuilder] (impl/chassis/controller/chassisControllerBuilder.cpp).

    Conventions of the embedding.
    - A C++ [double] is a rational number ([Q]): arithmetic is exact, there
      is no NaN, no infinity and no signed zero.  Equality of doubles is
      [Qeq] ([==]).  The one place where the code multiplies a quotient back
      by its divisor, the overloads of the controller on [double], takes
      the rounded quotient as a parameter.
    - [int16_t] and [int32_t] values are integers ([Z]); conversions and
      [int32_t] arithmetic have their two's-complement wrap-around written
      out.
    - An object the code only talks to through an interface (a motor, a PID
      controller) is the list of calls it has received, newest first.
    - The logger is a side channel and is left out. *)

From Stdlib Require Import String ZArith QArith Qabs Qround Bool List Lia Lqa.
Import ListNotations.

Local Open Scope Q_scope.

(** ** Numbers *)

Module Num.

(** [a < b] on doubles, as a boolean. *)
Definition Qltb (a b : Q) : bool := negb (Qle_bool b a).

(** [std::clamp(v, lo, hi)]: [(v < lo) ? lo : (hi < v) ? hi : v]. *)
Definition clamp (v lo hi : Q) : Q :=
  if Qltb v lo then lo else if Qltb hi v then hi else v.

(** [std::max(a, b)]: [(a < b) ? b : a]. *)
Definition max (a b : Q) : Q := if Qltb a b then b else a.

(** [std::copysign(x, y)]: the magnitude of [x] with the sign of [y]. *)
Definition copysign (x y : Q) : Q :=
  if Qltb y 0 then - Qabs x else Qabs x.

(** Rounding toward zero, the value part of a floating-to-integer
    conversion. *)
Definition truncate (x : Q) : Z := Z.quot (Qnum x) (Zpos (Qden x)).

(** Two's-complement wrap of an integer into [w] bits, signed. *)
Definition wrap (w : Z) (z : Z) : Z :=
  (z + 2 ^ (w - 1)) mod 2 ^ w - 2 ^ (w - 1).

(** [static_cast<int16_t>(x)] for a double [x].  Out of the range of
    [int16_t] the conversion is not defined by the language; the model wraps,
    in range the value is the truncation. *)
Definition to_int16 (x : Q) : Z := wrap 16 (truncate x).

(** [static_cast<std::int32_t>(x)] for a double [x]. *)
Definition to_int32 (x : Q) : Z := wrap 32 (truncate x).

(** [int32_t] subtraction and addition. *)
Definition sub32 (a b : Z) : Z := wrap 32 (a - b).
Definition add32 (a b : Z) : Z := wrap 32 (a + b).

End Num.

(** ** Devices behind the model *)

(** Modelled from the spec: the motor actuator capability ([AbstractMotor]
    is not among the sources).  A motor accepts [moveVelocity(value)] and
    [moveVoltage(value)] with an [int16_t] value, and passthrough
    configuration; its state is the calls it received, newest first. *)
Module AbstractMotor.

Inductive gearset : Set := red | green | blue.

Inductive encoderUnits : Set := degrees | rotations | counts.

Record GearsetRatioPair : Set := {
  internalGearset : gearset;
  ratio : Q
}.

Inductive call : Set :=
| moveVelocity (v : Z)
| moveVoltage (v : Z)
| setGearing (g : gearset)
| setEncoderUnits (u : encoderUnits).

Definition t : Set := list call.

(** The motion commands among the calls, newest first. *)
Definition isCommand (c : call) : bool :=
  match c with
  | moveVelocity _ | moveVoltage _ => true
  | _ => false
  end.

Definition commands (m : t) : list call := filter isCommand m.

End AbstractMotor.

(** ** SkidSteerModel *)

Module SkidSteerModel.

Import Num.

(** The sensors are the readings [get()] returns at present; they change
    with the world, between the steps of the program. *)
Record t : Type := {
  maxVelocity : Q;
  maxVoltage : Q;
  leftSideMotor : AbstractMotor.t;
  rightSideMotor : AbstractMotor.t;
  leftSensor : Q;
  rightSensor : Q
}.

Definition SkidSteerModel
  (ileftSideMotor irightSideMotor : AbstractMotor.t) (ileftEnc irightEnc : Q)
  (imaxVelocity imaxVoltage : Q) : t :=
  {| maxVelocity := imaxVelocity;
     maxVoltage := imaxVoltage;
     leftSideMotor := ileftSideMotor;
     rightSideMotor := irightSideMotor;
     leftSensor := ileftEnc;
     rightSensor := irightEnc |}.

(** [leftSideMotor->f(..); rightSideMotor->g(..)]: one call on each motor. *)
Definition send (m : t) (l r : AbstractMotor.call) : t :=
  {| maxVelocity := maxVelocity m;
     maxVoltage := maxVoltage m;
     leftSideMotor := l :: leftSideMotor m;
     rightSideMotor := r :: rightSideMotor m;
     leftSensor := leftSensor m;
     rightSensor := rightSensor m |}.

Definition sendLeft (m : t) (l : AbstractMotor.call) : t :=
  {| maxVelocity := maxVelocity m;
     maxVoltage := maxVoltage m;
     leftSideMotor := l :: leftSideMotor m;
     rightSideMotor := rightSideMotor m;
     leftSensor := leftSensor m;
     rightSensor := rightSensor m |}.

Definition sendRight (m : t) (r : AbstractMotor.call) : t :=
  {| maxVelocity := maxVelocity m;
     maxVoltage := maxVoltage m;
     leftSideMotor := leftSideMotor m;
     rightSideMotor := r :: rightSideMotor m;
     leftSensor := leftSensor m;
     rightSensor := rightSensor m |}.

Definition forward (m : t) (ispeed : Q) : t :=
  let speed := clamp ispeed (-1) 1 in
  send m (AbstractMotor.moveVelocity (to_int16 (speed * maxVelocity m)))
         (AbstractMotor.moveVelocity (to_int16 (speed * maxVelocity m))).

(** The mixing shared, line for line, by [driveVector] and
    [driveVectorVoltage]: the values of [leftOutput] and [rightOutput] when
    the motors are commanded. *)
Definition vectorOutputs (iforwardSpeed iyaw : Q) : Q * Q :=
  let forwardSpeed := clamp iforwardSpeed (-1) 1 in
  let yaw := clamp iyaw (-1) 1 in
  let leftOutput := forwardSpeed + yaw in
  let rightOutput := forwardSpeed - yaw in
  let maxInputMag := max (Qabs leftOutput) (Qabs rightOutput) in
  if Qltb 1 maxInputMag
  then (leftOutput / maxInputMag, rightOutput / maxInputMag)
  else (leftOutput, rightOutput).

Definition driveVector (m : t) (iforwardSpeed iyaw : Q) : t :=
  let '(leftOutput, rightOutput) := vectorOutputs iforwardSpeed iyaw in
  send m (AbstractMotor.moveVelocity (to_int16 (leftOutput * maxVelocity m)))
         (AbstractMotor.moveVelocity (to_int16 (rightOutput * maxVelocity m))).

Definition driveVectorVoltage (m : t) (iforwardSpeed iyaw : Q) : t :=
  let '(leftOutput, rightOutput) := vectorOutputs iforwardSpeed iyaw in
  send m (AbstractMotor.moveVoltage (to_int16 (leftOutput * maxVoltage m)))
         (AbstractMotor.moveVoltage (to_int16 (rightOutput * maxVoltage m))).

Definition rotate (m : t) (ispeed : Q) : t :=
  let speed := clamp ispeed (-1) 1 in
  send m (AbstractMotor.moveVelocity (to_int16 (speed * maxVelocity m)))
         (AbstractMotor.moveVelocity (to_int16 (-1 * speed * maxVelocity m))).

Definition stop (m : t) : t :=
  send m (AbstractMotor.moveVelocity 0) (AbstractMotor.moveVelocity 0).

(** One side of [tank]: clamp, then the strict deadband. *)
Definition tankSpeed (ispeed ithreshold : Q) : Q :=
  let speed := clamp ispeed (-1) 1 in
  if Qltb (Qabs speed) ithreshold then 0 else speed.

Definition tank (m : t) (ileftSpeed irightSpeed ithreshold : Q) : t :=
  let leftSpeed := tankSpeed ileftSpeed ithreshold in
  let rightSpeed := tankSpeed irightSpeed ithreshold in
  send m (AbstractMotor.moveVoltage (to_int16 (leftSpeed * maxVoltage m)))
         (AbstractMotor.moveVoltage (to_int16 (rightSpeed * maxVoltage m))).

(** One input of [arcade]: clamp, then the deadband, which includes the
    threshold itself. *)
Definition arcadeInput (iinput ithreshold : Q) : Q :=
  let input := clamp iinput (-1) 1 in
  if Qle_bool (Qabs input) ithreshold then 0 else input.

(** [leftOutput] and [rightOutput] of [arcade] before the final clamp. *)
Definition arcadeOutputs (iforwardSpeed iyaw ithreshold : Q) : Q * Q :=
  let forwardSpeed := arcadeInput iforwardSpeed ithreshold in
  let yaw := arcadeInput iyaw ithreshold in
  let maxInput := copysign (max (Qabs forwardSpeed) (Qabs yaw)) forwardSpeed in
  if Qle_bool 0 forwardSpeed then
    if Qle_bool 0 yaw
    then (maxInput, forwardSpeed - yaw)
    else (forwardSpeed + yaw, maxInput)
  else
    if Qle_bool 0 yaw
    then (forwardSpeed + yaw, maxInput)
    else (maxInput, forwardSpeed - yaw).

Definition arcade (m : t) (iforwardSpeed iyaw ithreshold : Q) : t :=
  let '(leftOutput, rightOutput) := arcadeOutputs iforwardSpeed iyaw ithreshold in
  send m
    (AbstractMotor.moveVoltage (to_int16 (clamp leftOutput (-1) 1 * maxVoltage m)))
    (AbstractMotor.moveVoltage (to_int16 (clamp rightOutput (-1) 1 * maxVoltage m))).

Definition left (m : t) (ispeed : Q) : t :=
  sendLeft m (AbstractMotor.moveVelocity (to_int16 (clamp ispeed (-1) 1 * maxVelocity m))).

Definition right (m : t) (ispeed : Q) : t :=
  sendRight m (AbstractMotor.moveVelocity (to_int16 (clamp ispeed (-1) 1 * maxVelocity m))).

Definition getSensorVals (m : t) : Z * Z :=
  (to_int32 (leftSensor m), to_int32 (rightSensor m)).

Definition resetSensors (m : t) : t :=
  {| maxVelocity := maxVelocity m;
     maxVoltage := maxVoltage m;
     leftSideMotor := leftSideMotor m;
     rightSideMotor := rightSideMotor m;
     leftSensor := 0;
     rightSensor := 0 |}.

Definition setGearing (m : t) (gearset : AbstractMotor.gearset) : t :=
  send m (AbstractMotor.setGearing gearset) (AbstractMotor.setGearing gearset).

Definition setEncoderUnits (m : t) (units : AbstractMotor.encoderUnits) : t :=
  send m (AbstractMotor.setEncoderUnits units) (AbstractMotor.setEncoderUnits units).

(** The calls an operation added to a motor: what is in [after] on top of
    [before]. *)
Definition issued (before after : AbstractMotor.t) : list AbstractMotor.call :=
  firstn (length after - length before) after.

(** The output operations of the model, as data. *)
Inductive operation : Set :=
| op_forward (ispeed : Q)
| op_rotate (ispeed : Q)
| op_driveVector (iforwardSpeed iyaw : Q)
| op_driveVectorVoltage (iforwardSpeed iyaw : Q)
| op_tank (ileftSpeed irightSpeed ithreshold : Q)
| op_arcade (iforwardSpeed iyaw ithreshold : Q)
| op_left (ispeed : Q)
| op_right (ispeed : Q)
| op_stop.

Definition perform (m : t) (o : operation) : t :=
  match o with
  | op_forward s => forward m s
  | op_rotate s => rotate m s
  | op_driveVector f y => driveVector m f y
  | op_driveVectorVoltage f y => driveVectorVoltage m f y
  | op_tank l r th => tank m l r th
  | op_arcade f y th => arcade m f y th
  | op_left s => left m s
  | op_right s => right m s
  | op_stop => stop m
  end.

(** A call respects the limits [vel] and [volt]: a velocity command is at
    most [vel] in magnitude, a voltage command at most [volt]. *)
Definition withinLimits (vel volt : Q) (c : AbstractMotor.call) : Prop :=
  match c with
  | AbstractMotor.moveVelocity v => Qabs (inject_Z v) <= vel
  | AbstractMotor.moveVoltage v => Qabs (inject_Z v) <= volt
  | _ => True
  end.

(** The value of the latest motion command of a motor. *)
Definition lastCommand (m : AbstractMotor.t) : option Z :=
  match AbstractMotor.commands m with
  | AbstractMotor.moveVelocity v :: _ => Some v
  | AbstractMotor.moveVoltage v :: _ => Some v
  | _ => None
  end.

End SkidSteerModel.

(** ** The interfaces the controller consumes *)

(** Exceptions the sources throw. *)
Inductive exception : Set :=
| invalid_argument (what : string)
| runtime_error (what : string).

(** Modelled from the spec: the PID step primitive
    ([IterativePosPIDController] is not among the sources): [step(errorSample)
    -> output], [setTarget(value)], [isSettled() -> bool], [reset()],
    [flipDisable(bool)], each instance with its own target, gains and enabled
    flag.  A controller is what it was built from and the calls it received,
    newest first; the target and the enabled flag are read off the calls.
    What [step] returns and what [isSettled] answers is the primitive's own
    business: a [Behaviour], about which nothing is assumed. *)
Module IterativePosPIDController.

Record Gains : Set := {
  kP : Q;
  kI : Q;
  kD : Q;
  kBias : Q
}.

(** A derivative filter object, by identity. *)
Definition Filter : Set := nat.

Inductive call : Set :=
| reset
| flipDisable (iisDisabled : bool)
| setTarget (itarget : Q)
| step (inewReading : Q).

Record t : Set := {
  gains : Gains;
  derivativeFilter : option Filter;
  calls : list call
}.

(** [std::make_unique<IterativePosPIDController>(gains, timeUtil, filter)];
    a moved-from [unique_ptr] is [None]. *)
Definition IterativePosPIDController (igains : Gains) (ifilter : option Filter) : t :=
  {| gains := igains; derivativeFilter := ifilter; calls := [] |}.

Definition invoke (p : t) (c : call) : t :=
  {| gains := gains p; derivativeFilter := derivativeFilter p; calls := c :: calls p |}.

Fixpoint lastTarget (cs : list call) : option Q :=
  match cs with
  | [] => None
  | setTarget x :: _ => Some x
  | _ :: cs' => lastTarget cs'
  end.

Fixpoint lastDisable (cs : list call) : option bool :=
  match cs with
  | [] => None
  | flipDisable b :: _ => Some b
  | _ :: cs' => lastDisable cs'
  end.

(** The target in force: that of the latest [setTarget], 0 before any. *)
Definition getTarget (p : t) : Q :=
  match lastTarget (calls p) with Some x => x | None => 0 end.

(** The enabled flag: that of the latest [flipDisable], enabled before any. *)
Definition isDisabled (p : t) : bool :=
  match lastDisable (calls p) with Some b => b | None => false end.

Class Behaviour : Type := {
  (** the value [p->step(reading)] returns, [p] as it is before the call *)
  stepOutput : t -> Q -> Q;
  (** the answer of [p->isSettled()] *)
  isSettled : t -> bool
}.

End IterativePosPIDController.

(** The operations of [ChassisModel] the controller calls through its
    [std::shared_ptr<ChassisModel>]. *)
Class ChassisModel (M : Type) : Type := {
  driveVector : M -> Q -> Q -> M;
  rotate : M -> Q -> M;
  stop : M -> M;
  getSensorVals : M -> Z * Z;
  setGearing : M -> AbstractMotor.gearset -> M;
  setEncoderUnits : M -> AbstractMotor.encoderUnits -> M
}.

#[export] Instance SkidSteerModel_ChassisModel : ChassisModel SkidSteerModel.t := {
  driveVector := SkidSteerModel.driveVector;
  rotate := SkidSteerModel.rotate;
  stop := SkidSteerModel.stop;
  getSensorVals := SkidSteerModel.getSensorVals;
  setGearing := SkidSteerModel.setGearing;
  setEncoderUnits := SkidSteerModel.setEncoderUnits
}.

(** Modelled from the spec: the units library (not among the sources).  A
    length is carried by its measure in meters, an angle by its measure in
    degrees, so [q.convert(meter)] and [q.convert(degree)] read the measure
    and [x * meter], [x * degree] build a quantity from it. *)
Record QLength : Set := { convert_meter : Q }.
Record QAngle : Set := { convert_degree : Q }.

Record ChassisScales : Set := {
  straight : Q;
  turn : Q
}.

(** Modelled from the spec: [boolToSign] of mathUtil.hpp (not among the
    sources), the sign of the configured turn direction. *)
Definition boolToSign (b : bool) : Z := if b then 1%Z else (-1)%Z.

(** The quotient of two doubles as the machine delivers it, rounded.  In
    the overloads of the controller on [double] a quotient is multiplied
    back by its divisor, and whether the divisor cancels is decided by the
    rounding; nothing is assumed about it. *)
Class DoubleQuotient : Type := {
  quotient : Q -> Q -> Q
}.

(** ** ChassisControllerPID *)

Module ChassisControllerPID.

Import Num.

Inductive modeType : Set := distance | angle | none.

Definition modeType_eqb (a b : modeType) : bool :=
  match a, b with
  | distance, distance | angle, angle | none, none => true
  | _, _ => false
  end.

(** The thread running [loop], by identity of the object it was started on. *)
Inductive CrossplatformThread : Set := thread_on_this.

Section Controller.

Context {M : Type} {chassisModel : ChassisModel M}
        {pidBehaviour : IterativePosPIDController.Behaviour}
        {doubleQuotient : DoubleQuotient}.

Record t : Type := {
  model : M;
  distancePid : IterativePosPIDController.t;
  turnPid : IterativePosPIDController.t;
  anglePid : IterativePosPIDController.t;
  scales : ChassisScales;
  gearsetRatioPair : AbstractMotor.GearsetRatioPair;
  normalTurns : bool;
  doneLooping : bool;
  newMovement : bool;
  dtorCalled : bool;
  mode : modeType;
  task : option CrossplatformThread
}.

Definition set_model (c : t) (v : M) : t :=
  {| model := v;
     distancePid := distancePid c;
     turnPid := turnPid c;
     anglePid := anglePid c;
     scales := scales c;
     gearsetRatioPair := gearsetRatioPair c;
     normalTurns := normalTurns c;
     doneLooping := doneLooping c;
     newMovement := newMovement c;
     dtorCalled := dtorCalled c;
     mode := mode c;
     task := task c |}.

Definition set_distancePid (c : t) (v : IterativePosPIDController.t) : t :=
  {| model := model c;
     distancePid := v;
     turnPid := turnPid c;
     anglePid := anglePid c;
     scales := scales c;
     gearsetRatioPair := gearsetRatioPair c;
     normalTurns := normalTurns c;
     doneLooping := doneLooping c;
     newMovement := newMovement c;
     dtorCalled := dtorCalled c;
     mode := mode c;
     task := task c |}.

Definition set_turnPid (c : t) (v : IterativePosPIDController.t) : t :=
  {| model := model c;
     distancePid := distancePid c;
     turnPid := v;
     anglePid := anglePid c;
     scales := scales c;
     gearsetRatioPair := gearsetRatioPair c;
     normalTurns := normalTurns c;
     doneLooping := doneLooping c;
     newMovement := newMovement c;
     dtorCalled := dtorCalled c;
     mode := mode c;
     task := task c |}.

Definition set_anglePid (c : t) (v : IterativePosPIDController.t) : t :=
  {| model := model c;
     distancePid := distancePid c;
     turnPid := turnPid c;
     anglePid := v;
     scales := scales c;
     gearsetRatioPair := gearsetRatioPair c;
     normalTurns := normalTurns c;
     doneLooping := doneLooping c;
     newMovement := newMovement c;
     dtorCalled := dtorCalled c;
     mode := mode c;
     task := task c |}.

Definition set_doneLooping (c : t) (v : bool) : t :=
  {| model := model c;
     distancePid := distancePid c;
     turnPid := turnPid c;
     anglePid := anglePid c;
     scales := scales c;
     gearsetRatioPair := gearsetRatioPair c;
     normalTurns := normalTurns c;
     doneLooping := v;
     newMovement := newMovement c;
     dtorCalled := dtorCalled c;
     mode := mode c;
     task := task c |}.

Definition set_newMovement (c : t) (v : bool) : t :=
  {| model := model c;
     distancePid := distancePid c;
     turnPid := turnPid c;
     anglePid := anglePid c;
     scales := scales c;
     gearsetRatioPair := gearsetRatioPair c;
     normalTurns := normalTurns c;
     doneLooping := doneLooping c;
     newMovement := v;
     dtorCalled := dtorCalled c;
     mode := mode c;
     task := task c |}.

Definition set_dtorCalled (c : t) (v : bool) : t :=
  {| model := model c;
     distancePid := distancePid c;
     turnPid := turnPid c;
     anglePid := anglePid c;
     scales := scales c;
     gearsetRatioPair := gearsetRatioPair c;
     normalTurns := normalTurns c;
     doneLooping := doneLooping c;
     newMovement := newMovement c;
     dtorCalled := v;
     mode := mode c;
     task := task c |}.

Definition set_mode (c : t) (v : modeType) : t :=
  {| model := model c;
     distancePid := distancePid c;
     turnPid := turnPid c;
     anglePid := anglePid c;
     scales := scales c;
     gearsetRatioPair := gearsetRatioPair c;
     normalTurns := normalTurns c;
     doneLooping := doneLooping c;
     newMovement := newMovement c;
     dtorCalled := dtorCalled c;
     mode := v;
     task := task c |}.

Definition set_task (c : t) (v : option CrossplatformThread) : t :=
  {| model := model c;
     distancePid := distancePid c;
     turnPid := turnPid c;
     anglePid := anglePid c;
     scales := scales c;
     gearsetRatioPair := gearsetRatioPair c;
     normalTurns := normalTurns c;
     doneLooping := doneLooping c;
     newMovement := newMovement c;
     dtorCalled := dtorCalled c;
     mode := mode c;
     task := v |}.

(** The members the header (not among the sources) initialises in place and
    the member of the base class [turnAngleAsync] reads. *)
Record MemberDefaults : Set := {
  default_normalTurns : bool;
  default_doneLooping : bool;
  default_newMovement : bool;
  default_dtorCalled : bool;
  default_mode : modeType
}.

(** What a constructor call leaves: the object, or the exception together
    with the shared model as the constructor left it. *)
Inductive constructed : Type :=
| built (c : t)
| threw (e : exception) (imodel : M).

Definition ratio_is_zero_message : string :=
  "ChassisControllerPID: The gear ratio cannot be zero! Check if you are using integer division.".

Definition ChassisControllerPID
  (defaults : MemberDefaults)
  (imodel : M)
  (idistanceController iturnController iangleController : IterativePosPIDController.t)
  (igearset : AbstractMotor.GearsetRatioPair)
  (iscales : ChassisScales) : constructed :=
  if Qeq_bool (AbstractMotor.ratio igearset) 0 then
    threw (invalid_argument ratio_is_zero_message) imodel
  else
    built
      {| model := setEncoderUnits
                    (setGearing imodel (AbstractMotor.internalGearset igearset))
                    AbstractMotor.degrees;
         distancePid := idistanceController;
         turnPid := iturnController;
         anglePid := iangleController;
         scales := iscales;
         gearsetRatioPair := igearset;
         normalTurns := default_normalTurns defaults;
         doneLooping := default_doneLooping defaults;
         newMovement := default_newMovement defaults;
         dtorCalled := default_dtorCalled defaults;
         mode := default_mode defaults;
         task := None |}.

(** *** The background loop *)

(** The locals of [loop] that live across iterations. *)
Record LoopLocals : Set := {
  encStartVals : Z * Z;
  pastMode : modeType
}.

(** [a - b] on [std::valarray<std::int32_t>] of two elements. *)
Definition valarray_sub (a b : Z * Z) : Z * Z :=
  (sub32 (fst a) (fst b), sub32 (snd a) (snd b)).

Definition loop_enter (c : t) : LoopLocals :=
  {| encStartVals := getSensorVals (model c); pastMode := none |}.

(** One pass through the body of the [while] of [loop], up to the delay. *)
Definition loop_body (l : LoopLocals) (c : t) : LoopLocals * t :=
  if negb (doneLooping c) then
    let rebase := negb (modeType_eqb (mode c) (pastMode l)) || newMovement c in
    let encStartVals := if rebase then getSensorVals (model c) else encStartVals l in
    let c := if rebase then set_newMovement c false else c in
    let c :=
      match mode c with
      | distance =>
          let encVals := valarray_sub (getSensorVals (model c)) encStartVals in
          let distanceElapsed := inject_Z (add32 (fst encVals) (snd encVals)) / 2 in
          let angleChange := inject_Z (sub32 (fst encVals) (snd encVals)) in
          let distanceOutput :=
            IterativePosPIDController.stepOutput (distancePid c) distanceElapsed in
          let angleOutput :=
            IterativePosPIDController.stepOutput (anglePid c) angleChange in
          let c := set_distancePid c
                     (IterativePosPIDController.invoke (distancePid c)
                        (IterativePosPIDController.step distanceElapsed)) in
          let c := set_anglePid c
                     (IterativePosPIDController.invoke (anglePid c)
                        (IterativePosPIDController.step angleChange)) in
          set_model c (driveVector (model c) distanceOutput angleOutput)
      | angle =>
          let encVals := valarray_sub (getSensorVals (model c)) encStartVals in
          let angleChange := inject_Z (sub32 (fst encVals) (snd encVals)) in
          let turnOutput :=
            IterativePosPIDController.stepOutput (turnPid c) angleChange in
          let c := set_turnPid c
                     (IterativePosPIDController.invoke (turnPid c)
                        (IterativePosPIDController.step angleChange)) in
          set_model c (rotate (model c) turnOutput)
      | none => c
      end in
    ({| encStartVals := encStartVals; pastMode := mode c |}, c)
  else (l, c).

(** What the rest of the world does to the controller while a thread sleeps
    in [rate->delayUntil(10_ms)]: the other thread's writes, sensors moving,
    a [notify] to the task. *)
Record World : Type := {
  interfere : t -> t;
  notifyTake : bool
}.

(** [loop]: the [while], one element of the world per delay reached; when
    the elements are used up the run is cut there. *)
Fixpoint loop_from (world : list World) (notified : bool) (l : LoopLocals) (c : t)
  : LoopLocals * t :=
  if negb (dtorCalled c) && negb notified then
    let (l', c') := loop_body l c in
    match world with
    | [] => (l', c')
    | w :: world' => loop_from world' (notifyTake w) l' (interfere w c')
    end
  else (l, c).

Definition loop (world : list World) (notified : bool) (c : t) : LoopLocals * t :=
  loop_from world notified (loop_enter c) c.

(** *** Starting a movement *)

Definition moveDistanceAsync (c : t) (itarget : QLength) : t :=
  let c := set_distancePid c
             (IterativePosPIDController.invoke (distancePid c) IterativePosPIDController.reset) in
  let c := set_anglePid c
             (IterativePosPIDController.invoke (anglePid c) IterativePosPIDController.reset) in
  let c := set_distancePid c
             (IterativePosPIDController.invoke (distancePid c)
                (IterativePosPIDController.flipDisable false)) in
  let c := set_anglePid c
             (IterativePosPIDController.invoke (anglePid c)
                (IterativePosPIDController.flipDisable false)) in
  let c := set_turnPid c
             (IterativePosPIDController.invoke (turnPid c)
                (IterativePosPIDController.flipDisable true)) in
  let c := set_mode c distance in
  let newTarget :=
    convert_meter itarget * straight (scales c) * AbstractMotor.ratio (gearsetRatioPair c) in
  let c := set_distancePid c
             (IterativePosPIDController.invoke (distancePid c)
                (IterativePosPIDController.setTarget newTarget)) in
  let c := set_anglePid c
             (IterativePosPIDController.invoke (anglePid c)
                (IterativePosPIDController.setTarget 0)) in
  let c := set_doneLooping c false in
  set_newMovement c true.

(** The overload on [double], [moveDistanceAsync((itarget / scales.straight)
    * meter)]: the quotient is the rounded one. *)
Definition moveDistanceAsync_double (c : t) (itarget : Q) : t :=
  moveDistanceAsync c {| convert_meter := quotient itarget (straight (scales c)) |}.

Definition turnAngleAsync (c : t) (idegTarget : QAngle) : t :=
  let c := set_turnPid c
             (IterativePosPIDController.invoke (turnPid c) IterativePosPIDController.reset) in
  let c := set_turnPid c
             (IterativePosPIDController.invoke (turnPid c)
                (IterativePosPIDController.flipDisable false)) in
  let c := set_distancePid c
             (IterativePosPIDController.invoke (distancePid c)
                (IterativePosPIDController.flipDisable true)) in
  let c := set_anglePid c
             (IterativePosPIDController.invoke (anglePid c)
                (IterativePosPIDController.flipDisable true)) in
  let c := set_mode c angle in
  let newTarget :=
    convert_degree idegTarget * turn (scales c) * AbstractMotor.ratio (gearsetRatioPair c)
    * inject_Z (boolToSign (normalTurns c)) in
  let c := set_turnPid c
             (IterativePosPIDController.invoke (turnPid c)
                (IterativePosPIDController.setTarget newTarget)) in
  let c := set_doneLooping c false in
  set_newMovement c true.

(** The overload on [double], [turnAngleAsync((idegTarget / scales.turn) *
    degree)]: the quotient is the rounded one. *)
Definition turnAngleAsync_double (c : t) (idegTarget : Q) : t :=
  turnAngleAsync c {| convert_degree := quotient idegTarget (turn (scales c)) |}.

(** *** Waiting for a movement to settle *)

(** What a settle-wait returns: its verdict, the world not yet consumed, the
    controller. *)
Definition Waited : Type := bool * list World * t.

(** [waitForDistanceSettled]: [None] when the world given is used up before
    the function returns. *)
Fixpoint waitForDistanceSettled (world : list World) (c : t) : option Waited :=
  if IterativePosPIDController.isSettled (distancePid c)
     && IterativePosPIDController.isSettled (anglePid c)
  then Some (true, world, c)
  else if modeType_eqb (mode c) angle then Some (false, world, c)
  else match world with
       | [] => None
       | w :: world' => waitForDistanceSettled world' (interfere w c)
       end.

Fixpoint waitForAngleSettled (world : list World) (c : t) : option Waited :=
  if IterativePosPIDController.isSettled (turnPid c)
  then Some (true, world, c)
  else if modeType_eqb (mode c) distance then Some (false, world, c)
  else match world with
       | [] => None
       | w :: world' => waitForAngleSettled world' (interfere w c)
       end.

Definition stopAfterSettled (c : t) : t :=
  let c := set_distancePid c
             (IterativePosPIDController.invoke (distancePid c)
                (IterativePosPIDController.flipDisable true)) in
  let c := set_anglePid c
             (IterativePosPIDController.invoke (anglePid c)
                (IterativePosPIDController.flipDisable true)) in
  let c := set_turnPid c
             (IterativePosPIDController.invoke (turnPid c)
                (IterativePosPIDController.flipDisable true)) in
  set_model c (stop (model c)).

(** The [while (!completelySettled)] of [waitUntilSettled]; [passes] bounds
    the number of times the [switch] is entered. *)
Fixpoint waitUntilSettled_while (passes : nat) (world : list World) (c : t)
  : option (list World * t) :=
  match passes with
  | O => None
  | S passes' =>
      match mode c with
      | distance =>
          match waitForDistanceSettled world c with
          | Some (true, world', c') => Some (world', c')
          | Some (false, world', c') => waitUntilSettled_while passes' world' c'
          | None => None
          end
      | angle =>
          match waitForAngleSettled world c with
          | Some (true, world', c') => Some (world', c')
          | Some (false, world', c') => waitUntilSettled_while passes' world' c'
          | None => None
          end
      | none => Some (world, c)
      end
  end.

(** [waitUntilSettled]: a settle-wait that asks for another pass has slept at
    least once, so one pass more than there are delays is every pass there
    can be. *)
Definition waitUntilSettled (world : list World) (c : t) : option (list World * t) :=
  match waitUntilSettled_while (S (length world)) world c with
  | Some (world', c') =>
      let c' := stopAfterSettled c' in
      let c' := set_mode c' none in
      Some (world', set_doneLooping c' true)
  | None => None
  end.

Definition moveDistance (world : list World) (c : t) (itarget : QLength)
  : option (list World * t) :=
  waitUntilSettled world (moveDistanceAsync c itarget).

Definition turnAngle (world : list World) (c : t) (idegTarget : QAngle)
  : option (list World * t) :=
  waitUntilSettled world (turnAngleAsync c idegTarget).

Definition startThread (c : t) : t :=
  match task c with
  | None => set_task c (Some thread_on_this)
  | Some _ => c
  end.

(** The controller as the polls of a settle-wait find it: at entry and after
    each delay. *)
Fixpoint polls (world : list World) (c : t) : list t :=
  c :: match world with
       | [] => []
       | w :: world' => polls world' (interfere w c)
       end.

(** The three statements of [waitUntilSettled] after its [while]. *)
Definition afterSettling (c : t) : t :=
  set_doneLooping (set_mode (stopAfterSettled c) none) true.

(** A poll at which a movement is under way and the PIDs of its mode report
    settled. *)
Definition movementSettled (c : t) : bool :=
  match mode c with
  | distance => IterativePosPIDController.isSettled (distancePid c)
                && IterativePosPIDController.isSettled (anglePid c)
  | angle => IterativePosPIDController.isSettled (turnPid c)
  | none => false
  end.

(** The settlement condition of the mode a controller is in; the idle mode
    has none to wait for. *)
Definition settledForMode (c : t) : bool :=
  match mode c with
  | distance => IterativePosPIDController.isSettled (distancePid c)
                && IterativePosPIDController.isSettled (anglePid c)
  | angle => IterativePosPIDController.isSettled (turnPid c)
  | none => true
  end.

End Controller.

Arguments t M : clear implicits.
Arguments World M : clear implicits.
Arguments constructed M : clear implicits.

End ChassisControllerPID.

(** ** ChassisControllerBuilder *)

(** The X-drive model, of which the sources hold the constructor call only:
    what it is built from.  Its operations are a parameter where a
    controller on it is built. *)
Record XDriveModel : Type := {
  x_topLeftMotor : AbstractMotor.t;
  x_topRightMotor : AbstractMotor.t;
  x_bottomRightMotor : AbstractMotor.t;
  x_bottomLeftMotor : AbstractMotor.t;
  x_leftSensor : option Q;
  x_rightSensor : option Q;
  x_maxVelocity : Q;
  x_maxVoltage : Q
}.

(** What a [std::shared_ptr<ChassisModel>] of the builder points to. *)
Inductive BuiltModel : Type :=
| skidSteer (m : SkidSteerModel.t)
| xDrive (m : XDriveModel).

Module ChassisControllerBuilder.

Record SkidSteerMotors : Set := {
  left : option AbstractMotor.t;
  right : option AbstractMotor.t
}.

Record XDriveMotors : Set := {
  topLeft : option AbstractMotor.t;
  topRight : option AbstractMotor.t;
  bottomRight : option AbstractMotor.t;
  bottomLeft : option AbstractMotor.t
}.

(** The members of the builder; a null pointer is [None], and so is a
    [unique_ptr] that was moved from.  The three filters are members the
    definitions in the .cpp assign and move, though the header at hand does
    not declare them; the time utility factory and the logger of the
    controller are left out. *)
Record t : Type := {
  hasMotors : bool;
  isSkidSteer : bool;
  skidSteerMotors : SkidSteerMotors;
  xDriveMotors : XDriveMotors;
  sensorsSetByUser : bool;
  leftSensor : option Q;
  rightSensor : option Q;
  hasGains : bool;
  distanceGains : IterativePosPIDController.Gains;
  angleGains : IterativePosPIDController.Gains;
  turnGains : IterativePosPIDController.Gains;
  distanceFilter : option IterativePosPIDController.Filter;
  turnFilter : option IterativePosPIDController.Filter;
  angleFilter : option IterativePosPIDController.Filter;
  gearset : AbstractMotor.GearsetRatioPair;
  scales : ChassisScales;
  maxVelSetByUser : bool;
  maxVelocity : Q;
  maxVoltage : Q
}.

(** The arguments [buildCCI] constructs a [ChassisControllerIntegrated]
    from (that class is not among the sources). *)
Record ChassisControllerIntegrated : Type := {
  cci_model : BuiltModel;
  cci_leftControllerMotor : option AbstractMotor.t;
  cci_rightControllerMotor : option AbstractMotor.t;
  cci_gearset : AbstractMotor.GearsetRatioPair;
  cci_scales : ChassisScales
}.

Inductive built : Type :=
| builtPID (c : ChassisControllerPID.t BuiltModel)
| builtIntegrated (c : ChassisControllerIntegrated)
| buildThrew (e : exception).

Section Builder.

(** Of the classes the builder wires together and the sources do not hold:
    the operations of the X-drive model, the encoder a motor carries, the
    velocity a gearset stands for, the default members of the controller. *)
Context (xDriveOps : ChassisModel XDriveModel).
Context (getEncoder : AbstractMotor.t -> Q).
Context (toUnderlyingType : AbstractMotor.gearset -> Q).
Context (defaults : ChassisControllerPID.MemberDefaults).
Context {pidBehaviour : IterativePosPIDController.Behaviour}.

(** A skid-steer model whose sensors are null is beyond the model: the
    readings are taken as 0. *)
Definition sensorOr0 (s : option Q) : Q :=
  match s with Some q => q | None => 0 end.

Definition motorOrFresh (m : option AbstractMotor.t) : AbstractMotor.t :=
  match m with Some x => x | None => [] end.

#[local] Instance BuiltModel_ChassisModel : ChassisModel BuiltModel := {
  driveVector m f y :=
    match m with
    | skidSteer s => skidSteer (SkidSteerModel.driveVector s f y)
    | xDrive x => xDrive (driveVector x f y)
    end;
  rotate m v :=
    match m with
    | skidSteer s => skidSteer (SkidSteerModel.rotate s v)
    | xDrive x => xDrive (rotate x v)
    end;
  stop m :=
    match m with
    | skidSteer s => skidSteer (SkidSteerModel.stop s)
    | xDrive x => xDrive (stop x)
    end;
  getSensorVals m :=
    match m with
    | skidSteer s => SkidSteerModel.getSensorVals s
    | xDrive x => getSensorVals x
    end;
  setGearing m g :=
    match m with
    | skidSteer s => skidSteer (SkidSteerModel.setGearing s g)
    | xDrive x => xDrive (setGearing x g)
    end;
  setEncoderUnits m u :=
    match m with
    | skidSteer s => skidSteer (SkidSteerModel.setEncoderUnits s u)
    | xDrive x => xDrive (setEncoderUnits x u)
    end
}.


(** [withMotors(ileft, iright)], the skid-steer layout. *)
Definition withMotors (b : t) (ileft iright : AbstractMotor.t) : t :=
  {| hasMotors := true;
     isSkidSteer := true;
     skidSteerMotors := {| left := Some ileft; right := Some iright |};
     xDriveMotors := xDriveMotors b;
     sensorsSetByUser := sensorsSetByUser b;
     leftSensor := if negb (sensorsSetByUser b) then Some (getEncoder ileft) else leftSensor b;
     rightSensor := if negb (sensorsSetByUser b) then Some (getEncoder iright) else rightSensor b;
     hasGains := hasGains b;
     distanceGains := distanceGains b;
     angleGains := angleGains b;
     turnGains := turnGains b;
     distanceFilter := distanceFilter b;
     turnFilter := turnFilter b;
     angleFilter := angleFilter b;
     gearset := gearset b;
     scales := scales b;
     maxVelSetByUser := maxVelSetByUser b;
     maxVelocity := maxVelocity b;
     maxVoltage := maxVoltage b |}.

(** [withMotors(itopLeft, itopRight, ibottomRight, ibottomLeft)], the x-drive
    layout. *)
Definition withMotors_xDrive (b : t) (itopLeft itopRight ibottomRight ibottomLeft : AbstractMotor.t) : t :=
  {| hasMotors := true;
     isSkidSteer := false;
     skidSteerMotors := skidSteerMotors b;
     xDriveMotors := {| topLeft := Some itopLeft; topRight := Some itopRight;
                       bottomRight := Some ibottomRight; bottomLeft := Some ibottomLeft |};
     sensorsSetByUser := sensorsSetByUser b;
     leftSensor := if negb (sensorsSetByUser b) then Some (getEncoder itopLeft) else leftSensor b;
     rightSensor := if negb (sensorsSetByUser b) then Some (getEncoder itopRight) else rightSensor b;
     hasGains := hasGains b;
     distanceGains := distanceGains b;
     angleGains := angleGains b;
     turnGains := turnGains b;
     distanceFilter := distanceFilter b;
     turnFilter := turnFilter b;
     angleFilter := angleFilter b;
     gearset := gearset b;
     scales := scales b;
     maxVelSetByUser := maxVelSetByUser b;
     maxVelocity := maxVelocity b;
     maxVoltage := maxVoltage b |}.

Definition withSensors (b : t) (ileft iright : Q) : t :=
  {| hasMotors := hasMotors b;
     isSkidSteer := isSkidSteer b;
     skidSteerMotors := skidSteerMotors b;
     xDriveMotors := xDriveMotors b;
     sensorsSetByUser := true;
     leftSensor := Some ileft;
     rightSensor := Some iright;
     hasGains := hasGains b;
     distanceGains := distanceGains b;
     angleGains := angleGains b;
     turnGains := turnGains b;
     distanceFilter := distanceFilter b;
     turnFilter := turnFilter b;
     angleFilter := angleFilter b;
     gearset := gearset b;
     scales := scales b;
     maxVelSetByUser := maxVelSetByUser b;
     maxVelocity := maxVelocity b;
     maxVoltage := maxVoltage b |}.

(** [withGains] of three arguments, with the parameter names of its
    definition: the second parameter is [iturnGains], the third
    [iangleGains]. *)
Definition withGains (b : t) (idistanceGains iturnGains iangleGains : IterativePosPIDController.Gains) : t :=
  {| hasMotors := hasMotors b;
     isSkidSteer := isSkidSteer b;
     skidSteerMotors := skidSteerMotors b;
     xDriveMotors := xDriveMotors b;
     sensorsSetByUser := sensorsSetByUser b;
     leftSensor := leftSensor b;
     rightSensor := rightSensor b;
     hasGains := true;
     distanceGains := idistanceGains;
     angleGains := iangleGains;
     turnGains := iturnGains;
     distanceFilter := distanceFilter b;
     turnFilter := turnFilter b;
     angleFilter := angleFilter b;
     gearset := gearset b;
     scales := scales b;
     maxVelSetByUser := maxVelSetByUser b;
     maxVelocity := maxVelocity b;
     maxVoltage := maxVoltage b |}.

(** [withGains] of two arguments. *)
Definition withGains2 (b : t) (idistanceGains iturnGains : IterativePosPIDController.Gains) : t :=
  withGains b idistanceGains iturnGains iturnGains.

(** The arguments are [unique_ptr]s moved into the members. *)
Definition withDerivativeFilters (b : t) (idistanceFilter iturnFilter iangleFilter : IterativePosPIDController.Filter) : t :=
  {| hasMotors := hasMotors b;
     isSkidSteer := isSkidSteer b;
     skidSteerMotors := skidSteerMotors b;
     xDriveMotors := xDriveMotors b;
     sensorsSetByUser := sensorsSetByUser b;
     leftSensor := leftSensor b;
     rightSensor := rightSensor b;
     hasGains := hasGains b;
     distanceGains := distanceGains b;
     angleGains := angleGains b;
     turnGains := turnGains b;
     distanceFilter := Some idistanceFilter;
     turnFilter := Some iturnFilter;
     angleFilter := Some iangleFilter;
     gearset := gearset b;
     scales := scales b;
     maxVelSetByUser := maxVelSetByUser b;
     maxVelocity := maxVelocity b;
     maxVoltage := maxVoltage b |}.

Definition withGearset (b : t) (igearset : AbstractMotor.GearsetRatioPair) : t :=
  {| hasMotors := hasMotors b;
     isSkidSteer := isSkidSteer b;
     skidSteerMotors := skidSteerMotors b;
     xDriveMotors := xDriveMotors b;
     sensorsSetByUser := sensorsSetByUser b;
     leftSensor := leftSensor b;
     rightSensor := rightSensor b;
     hasGains := hasGains b;
     distanceGains := distanceGains b;
     angleGains := angleGains b;
     turnGains := turnGains b;
     distanceFilter := distanceFilter b;
     turnFilter := turnFilter b;
     angleFilter := angleFilter b;
     gearset := igearset;
     scales := scales b;
     maxVelSetByUser := maxVelSetByUser b;
     maxVelocity := if negb (maxVelSetByUser b)
                    then toUnderlyingType (AbstractMotor.internalGearset igearset)
                    else maxVelocity b;
     maxVoltage := maxVoltage b |}.

Definition withDimensions (b : t) (iscales : ChassisScales) : t :=
  {| hasMotors := hasMotors b;
     isSkidSteer := isSkidSteer b;
     skidSteerMotors := skidSteerMotors b;
     xDriveMotors := xDriveMotors b;
     sensorsSetByUser := sensorsSetByUser b;
     leftSensor := leftSensor b;
     rightSensor := rightSensor b;
     hasGains := hasGains b;
     distanceGains := distanceGains b;
     angleGains := angleGains b;
     turnGains := turnGains b;
     distanceFilter := distanceFilter b;
     turnFilter := turnFilter b;
     angleFilter := angleFilter b;
     gearset := gearset b;
     scales := iscales;
     maxVelSetByUser := maxVelSetByUser b;
     maxVelocity := maxVelocity b;
     maxVoltage := maxVoltage b |}.

Definition withMaxVelocity (b : t) (imaxVelocity : Q) : t :=
  {| hasMotors := hasMotors b;
     isSkidSteer := isSkidSteer b;
     skidSteerMotors := skidSteerMotors b;
     xDriveMotors := xDriveMotors b;
     sensorsSetByUser := sensorsSetByUser b;
     leftSensor := leftSensor b;
     rightSensor := rightSensor b;
     hasGains := hasGains b;
     distanceGains := distanceGains b;
     angleGains := angleGains b;
     turnGains := turnGains b;
     distanceFilter := distanceFilter b;
     turnFilter := turnFilter b;
     angleFilter := angleFilter b;
     gearset := gearset b;
     scales := scales b;
     maxVelSetByUser := true;
     maxVelocity := imaxVelocity;
     maxVoltage := maxVoltage b |}.

Definition withMaxVoltage (b : t) (imaxVoltage : Q) : t :=
  {| hasMotors := hasMotors b;
     isSkidSteer := isSkidSteer b;
     skidSteerMotors := skidSteerMotors b;
     xDriveMotors := xDriveMotors b;
     sensorsSetByUser := sensorsSetByUser b;
     leftSensor := leftSensor b;
     rightSensor := rightSensor b;
     hasGains := hasGains b;
     distanceGains := distanceGains b;
     angleGains := angleGains b;
     turnGains := turnGains b;
     distanceFilter := distanceFilter b;
     turnFilter := turnFilter b;
     angleFilter := angleFilter b;
     gearset := gearset b;
     scales := scales b;
     maxVelSetByUser := maxVelSetByUser b;
     maxVelocity := maxVelocity b;
     maxVoltage := imaxVoltage |}.

Definition makeSkidSteerModel (b : t) : BuiltModel :=
  skidSteer
    (SkidSteerModel.SkidSteerModel
       (motorOrFresh (left (skidSteerMotors b)))
       (motorOrFresh (right (skidSteerMotors b)))
       (sensorOr0 (leftSensor b)) (sensorOr0 (rightSensor b))
       (maxVelocity b) (maxVoltage b)).

Definition makeXDriveModel (b : t) : BuiltModel :=
  xDrive
    {| x_topLeftMotor := motorOrFresh (topLeft (xDriveMotors b));
       x_topRightMotor := motorOrFresh (topRight (xDriveMotors b));
       x_bottomRightMotor := motorOrFresh (bottomRight (xDriveMotors b));
       x_bottomLeftMotor := motorOrFresh (bottomLeft (xDriveMotors b));
       x_leftSensor := leftSensor b;
       x_rightSensor := rightSensor b;
       x_maxVelocity := maxVelocity b;
       x_maxVoltage := maxVoltage b |}.


(** The builder after the three [std::move]s of [buildCCPID]. *)
Definition filtersMoved (b : t) : t :=
  {| hasMotors := hasMotors b;
     isSkidSteer := isSkidSteer b;
     skidSteerMotors := skidSteerMotors b;
     xDriveMotors := xDriveMotors b;
     sensorsSetByUser := sensorsSetByUser b;
     leftSensor := leftSensor b;
     rightSensor := rightSensor b;
     hasGains := hasGains b;
     distanceGains := distanceGains b;
     angleGains := angleGains b;
     turnGains := turnGains b;
     distanceFilter := None;
     turnFilter := None;
     angleFilter := None;
     gearset := gearset b;
     scales := scales b;
     maxVelSetByUser := maxVelSetByUser b;
     maxVelocity := maxVelocity b;
     maxVoltage := maxVoltage b |}.

(** [buildCCPID]: the arguments of [std::make_shared<ChassisControllerPID>]
    in the order they are written, then [startThread] on the object. *)
Definition buildCCPID (b : t) : t * built :=
  let imodel := if isSkidSteer b then makeSkidSteerModel b else makeXDriveModel b in
  let out :=
    ChassisControllerPID.ChassisControllerPID defaults
      imodel
      (IterativePosPIDController.IterativePosPIDController
         (distanceGains b) (distanceFilter b))
      (IterativePosPIDController.IterativePosPIDController
         (angleGains b) (angleFilter b))
      (IterativePosPIDController.IterativePosPIDController
         (turnGains b) (turnFilter b))
      (gearset b)
      (scales b) in
  match out with
  | ChassisControllerPID.built c =>
      (filtersMoved b, builtPID (ChassisControllerPID.startThread c))
  | ChassisControllerPID.threw e _ => (filtersMoved b, buildThrew e)
  end.

Definition buildCCI (b : t) : t * built :=
  let imodel := if isSkidSteer b then makeSkidSteerModel b else makeXDriveModel b in
  (b, builtIntegrated
        {| cci_model := imodel;
           cci_leftControllerMotor := left (skidSteerMotors b);
           cci_rightControllerMotor := right (skidSteerMotors b);
           cci_gearset := gearset b;
           cci_scales := scales b |}).

Definition build (b : t) : t * built :=
  if negb (hasMotors b) then
    (b, buildThrew (runtime_error "ChassisControllerBuilder: No motors given."))
  else if hasGains b then buildCCPID b
  else buildCCI b.

End Builder.

End ChassisControllerBuilder.

(** ** Concrete set-ups *)

(** A PID primitive, a controller and worlds to run the operations on. *)
Module Scenario.

Import ChassisControllerPID.

(** The reading of the latest [step] since the latest [reset]. *)
Fixpoint lastReading (cs : list IterativePosPIDController.call) : option Q :=
  match cs with
  | [] => None
  | IterativePosPIDController.step r :: _ => Some r
  | IterativePosPIDController.reset :: _ => None
  | _ :: cs' => lastReading cs'
  end.

Definition onTarget (p : IterativePosPIDController.t) : bool :=
  match lastReading (IterativePosPIDController.calls p) with
  | Some r => Qeq_bool r (IterativePosPIDController.getTarget p)
  | None => false
  end.

(** A proportional controller of gain [kP]: disabled it outputs 0 and
    reports settled; enabled it reports settled once its latest reading is
    its target. *)
Definition proportional : IterativePosPIDController.Behaviour :=
  {| IterativePosPIDController.stepOutput p reading :=
       if IterativePosPIDController.isDisabled p then 0
       else IterativePosPIDController.kP (IterativePosPIDController.gains p)
            * (IterativePosPIDController.getTarget p - reading);
     IterativePosPIDController.isSettled p :=
       IterativePosPIDController.isDisabled p || onTarget p |}.

(** The same controller, except that it reports settled only when its
    latest reading is its target, disabled or not. *)
Definition strict : IterativePosPIDController.Behaviour :=
  {| IterativePosPIDController.stepOutput :=
       IterativePosPIDController.stepOutput (Behaviour := proportional);
     IterativePosPIDController.isSettled := onTarget |}.

(** Quotients that need no rounding. *)
Definition unrounded : DoubleQuotient := {| quotient := Qdiv |}.

Definition gainsOf (p : Q) : IterativePosPIDController.Gains :=
  {| IterativePosPIDController.kP := p;
     IterativePosPIDController.kI := 0;
     IterativePosPIDController.kD := 0;
     IterativePosPIDController.kBias := 0 |}.

Definition pidOf (p : Q) : IterativePosPIDController.t :=
  IterativePosPIDController.IterativePosPIDController (gainsOf p) None.

Definition robot : SkidSteerModel.t :=
  SkidSteerModel.SkidSteerModel [] [] 0 0 600 12000.

Definition defaults : MemberDefaults :=
  {| default_normalTurns := true;
     default_doneLooping := true;
     default_newMovement := false;
     default_dtorCalled := false;
     default_mode := none |}.

Definition directDrive (r : Q) : AbstractMotor.GearsetRatioPair :=
  {| AbstractMotor.internalGearset := AbstractMotor.red; AbstractMotor.ratio := r |}.

Definition scalesTwo : ChassisScales := {| straight := 2; turn := 2 |}.

(** The controller [ChassisControllerPID defaults robot .. (directDrive 1)
    scalesTwo] builds. *)
Definition controller : t SkidSteerModel.t :=
  {| model := SkidSteerModel.setEncoderUnits
                (SkidSteerModel.setGearing robot AbstractMotor.red)
                AbstractMotor.degrees;
     distancePid := pidOf 1;
     turnPid := pidOf 1;
     anglePid := pidOf 1;
     scales := scalesTwo;
     gearsetRatioPair := directDrive 1;
     normalTurns := true;
     doneLooping := true;
     newMovement := false;
     dtorCalled := false;
     mode := none;
     task := None |}.

(** The wheels are at [l] and [r]. *)
Definition sensorsAt (l r : Q) (c : t SkidSteerModel.t) : t SkidSteerModel.t :=
  set_model c
    {| SkidSteerModel.maxVelocity := SkidSteerModel.maxVelocity (model c);
       SkidSteerModel.maxVoltage := SkidSteerModel.maxVoltage (model c);
       SkidSteerModel.leftSideMotor := SkidSteerModel.leftSideMotor (model c);
       SkidSteerModel.rightSideMotor := SkidSteerModel.rightSideMotor (model c);
       SkidSteerModel.leftSensor := l;
       SkidSteerModel.rightSensor := r |}.

(** During a delay the loop thread makes one pass, its locals being [l],
    with the wheels at [left] and [right]. *)
Definition loopPasses (pid : IterativePosPIDController.Behaviour)
  (l : LoopLocals) (left right : Q) : World SkidSteerModel.t :=
  {| interfere c := snd (loop_body (pidBehaviour := pid) l (sensorsAt left right c));
     notifyTake := false |}.

(** During one delay first [w1] happens, then [w2]. *)
Definition both (w1 w2 : World SkidSteerModel.t) : World SkidSteerModel.t :=
  {| interfere c := interfere w2 (interfere w1 c);
     notifyTake := notifyTake w1 || notifyTake w2 |}.

(** The locals of the loop before its first pass on the example robot, and
    after a pass in mode [distance] that took the baseline at 0. *)
Definition localsAtStart : LoopLocals := {| encStartVals := (0%Z, 0%Z); pastMode := none |}.
Definition localsMoving : LoopLocals := {| encStartVals := (0%Z, 0%Z); pastMode := distance |}.

(** During a delay another client thread calls [turnAngleAsync]. *)
Definition clientTurns (deg : Q) : World SkidSteerModel.t :=
  {| interfere c := turnAngleAsync c {| convert_degree := deg |}; notifyTake := false |}.

(** During a delay nothing the waiting thread can see happens. *)
Definition quiet : World SkidSteerModel.t :=
  {| interfere c := c; notifyTake := false |}.

(** An X-drive whose operations do nothing, to build on. *)
Definition inertXDrive : ChassisModel XDriveModel :=
  {| driveVector m _ _ := m;
     rotate m _ := m;
     stop m := m;
     getSensorVals _ := (0%Z, 0%Z);
     setGearing m _ := m;
     setEncoderUnits m _ := m |}.

(** A builder before any [with..] call, the implicit conversion of the
    gearset giving ratio 1. *)
Definition freshBuilder : ChassisControllerBuilder.t :=
  {| ChassisControllerBuilder.hasMotors := false;
     ChassisControllerBuilder.isSkidSteer := true;
     ChassisControllerBuilder.skidSteerMotors :=
       {| ChassisControllerBuilder.left := None; ChassisControllerBuilder.right := None |};
     ChassisControllerBuilder.xDriveMotors :=
       {| ChassisControllerBuilder.topLeft := None;
          ChassisControllerBuilder.topRight := None;
          ChassisControllerBuilder.bottomRight := None;
          ChassisControllerBuilder.bottomLeft := None |};
     ChassisControllerBuilder.sensorsSetByUser := false;
     ChassisControllerBuilder.leftSensor := None;
     ChassisControllerBuilder.rightSensor := None;
     ChassisControllerBuilder.hasGains := false;
     ChassisControllerBuilder.distanceGains := gainsOf 0;
     ChassisControllerBuilder.angleGains := gainsOf 0;
     ChassisControllerBuilder.turnGains := gainsOf 0;
     ChassisControllerBuilder.distanceFilter := Some 10%nat;
     ChassisControllerBuilder.turnFilter := Some 20%nat;
     ChassisControllerBuilder.angleFilter := Some 30%nat;
     ChassisControllerBuilder.gearset := directDrive 1;
     ChassisControllerBuilder.scales := {| straight := 1; turn := 1 |};
     ChassisControllerBuilder.maxVelSetByUser := false;
     ChassisControllerBuilder.maxVelocity := 600;
     ChassisControllerBuilder.maxVoltage := 12000 |}.

End Scenario.

(** ** The rest of the controller's life *)

Module Lifecycle.

Import ChassisControllerPID.

(** [~ChassisControllerPID]: [dtorCalled.store(true)], then [delete task]. *)
Definition destructor {M : Type} (c : t M) : t M :=
  set_task (set_dtorCalled c true) None.

(** The destructor running on another thread during a delay. *)
Definition destroyed {M : Type} : World M :=
  {| interfere := destructor; notifyTake := false |}.

(** The PIDs that are enabled are those of the mode: the distance and the
    angle PID in [distance], the turn PID in [angle], none in [none]. *)
Definition pidsMatchMode {M : Type} (c : t M) : bool :=
  let off p := IterativePosPIDController.isDisabled p in
  match mode c with
  | distance => negb (off (distancePid c)) && negb (off (anglePid c)) && off (turnPid c)
  | angle => off (distancePid c) && off (anglePid c) && negb (off (turnPid c))
  | none => off (distancePid c) && off (anglePid c) && off (turnPid c)
  end.

(** What the world alone makes of a controller over the delays of [loop],
    up to the delay after which [loop] finds it is to end. *)
Fixpoint worldAlone {M : Type} (world : list (World M)) (notified : bool) (c : t M) : t M :=
  if negb (dtorCalled c) && negb notified then
    match world with
    | [] => c
    | w :: world' => worldAlone world' (notifyTake w) (interfere w c)
    end
  else c.

End Lifecycle.

(** *** Facts on the numeric layer *)

Lemma Qltb_lt (a b : Q) : Num.Qltb a b = true <-> a < b.
Proof.
  unfold Num.Qltb. rewrite negb_true_iff.
  split; intro H.
  - apply Qnot_le_lt. intro Hle. apply Qle_bool_iff in Hle. congruence.
  - destruct (Qle_bool b a) eqn:E; [|reflexivity].
    apply Qle_bool_iff in E. exfalso. exact (Qlt_not_le _ _ H E).
Qed.

Lemma Qltb_ge (a b : Q) : Num.Qltb a b = false <-> b <= a.
Proof.
  unfold Num.Qltb. rewrite negb_false_iff. apply Qle_bool_iff.
Qed.

Ltac qltb_cases :=
  repeat match goal with
  | |- context [Num.Qltb ?a ?b] =>
      let E := fresh "E" in
      destruct (Num.Qltb a b) eqn:E;
      [apply Qltb_lt in E | apply Qltb_ge in E]
  | H : context [Num.Qltb ?a ?b] |- _ =>
      let E := fresh "E" in
      destruct (Num.Qltb a b) eqn:E;
      [apply Qltb_lt in E | apply Qltb_ge in E]
  end.

Lemma clamp_unit_bounds (v : Q) : -1 <= Num.clamp v (-1) 1 <= 1.
Proof. unfold Num.clamp. qltb_cases; lra. Qed.

Lemma clamp_unit_id (v : Q) : -1 <= v <= 1 -> Num.clamp v (-1) 1 = v.
Proof. unfold Num.clamp. intros [H1 H2]. qltb_cases; try lra; reflexivity. Qed.

Lemma Qabs_le_iff (x y : Q) : Qabs x <= y <-> - y <= x <= y.
Proof. apply Qabs_Qle_condition. Qed.

Lemma clamp_unit_abs (v : Q) : Qabs (Num.clamp v (-1) 1) <= 1.
Proof. apply Qabs_le_iff. apply clamp_unit_bounds. Qed.

Lemma clamp_unit_abs_le (v : Q) : Qabs (Num.clamp v (-1) 1) <= Qabs v.
Proof.
  unfold Num.clamp. qltb_cases.
  - apply Qabs_case; intros; apply Qabs_case; intros; simpl; lra.
  - apply Qabs_case; intros; apply Qabs_case; intros; simpl; lra.
  - apply Qle_refl.
Qed.

Lemma max_spec (a b : Q) : a <= Num.max a b /\ b <= Num.max a b.
Proof. unfold Num.max. qltb_cases; lra. Qed.

Lemma max_cases (a b : Q) :
  (Num.max a b = a /\ b <= a) \/ (Num.max a b = b /\ a < b).
Proof. unfold Num.max. qltb_cases; [right | left]; split; auto. Qed.

Lemma truncate_Qeq (x y : Q) : x == y -> Num.truncate x = Num.truncate y.
Proof.
  destruct x as [a b], y as [c d]. unfold Num.truncate, Qeq. simpl. intros E.
  transitivity (Z.quot (a * Zpos d) (Zpos b * Zpos d)).
  - symmetry. apply Z.quot_mul_cancel_r; lia.
  - rewrite E, (Z.mul_comm (Zpos b)). apply Z.quot_mul_cancel_r; lia.
Qed.

Lemma quot_abs_mul_le (n : Z) (d : positive) :
  (Z.abs (Z.quot n (Zpos d)) * Zpos d <= Z.abs n)%Z.
Proof.
  rewrite <- Z.quot_abs by lia.
  rewrite (Z.abs_eq (Zpos d)) by lia.
  rewrite Z.mul_comm. apply Z.mul_quot_le; lia.
Qed.

Lemma truncate_abs_le (x : Q) : inject_Z (Z.abs (Num.truncate x)) <= Qabs x.
Proof.
  destruct x as [n d]. unfold Num.truncate, Qabs, Qle, inject_Z. simpl.
  rewrite Z.mul_1_r. apply quot_abs_mul_le.
Qed.

Lemma wrap16_in_range (z : Z) :
  (-32768 <= z <= 32767)%Z -> Num.wrap 16 z = z.
Proof.
  intros Hz. unfold Num.wrap.
  change (2 ^ (16 - 1))%Z with 32768%Z. change (2 ^ 16)%Z with 65536%Z.
  rewrite Z.mod_small by lia. lia.
Qed.

Lemma wrap16_bounds (z : Z) : (-32768 <= Num.wrap 16 z <= 32767)%Z.
Proof.
  unfold Num.wrap.
  change (2 ^ (16 - 1))%Z with 32768%Z. change (2 ^ 16)%Z with 65536%Z.
  pose proof (Z.mod_pos_bound (z + 32768) 65536 ltac:(lia)). lia.
Qed.

Lemma wrap32_in_range (z : Z) :
  (-2147483648 <= z <= 2147483647)%Z -> Num.wrap 32 z = z.
Proof.
  intros Hz. unfold Num.wrap.
  change (2 ^ (32 - 1))%Z with 2147483648%Z. change (2 ^ 32)%Z with 4294967296%Z.
  rewrite Z.mod_small by lia. lia.
Qed.

Lemma Qabs_inject_Z (z : Z) : Qabs (inject_Z z) = inject_Z (Z.abs z).
Proof. reflexivity. Qed.

Lemma inject_Z_le (a b : Z) : (a <= b)%Z -> inject_Z a <= inject_Z b.
Proof. intro Hab. rewrite <- Zle_Qle. exact Hab. Qed.

(** A conversion to [int16_t] never grows a magnitude past a bound the
    converted value respects. *)
Lemma to_int16_abs_le (x b : Q) :
  Qabs x <= b -> Qabs (inject_Z (Num.to_int16 x)) <= b.
Proof.
  intros Hx. unfold Num.to_int16. rewrite Qabs_inject_Z.
  pose proof (truncate_abs_le x) as Ht.
  destruct (Z_le_gt_dec (Z.abs (Num.truncate x)) 32767) as [Hs | Hl].
  - rewrite wrap16_in_range by lia.
    eapply Qle_trans; [exact Ht | exact Hx].
  - pose proof (wrap16_bounds (Num.truncate x)) as Hw.
    apply Qle_trans with (inject_Z (Z.abs (Num.truncate x))).
    + apply inject_Z_le. lia.
    + eapply Qle_trans; [exact Ht | exact Hx].
Qed.

Lemma to_int16_zero_l (q : Q) : Num.to_int16 (0 * q) = 0%Z.
Proof. reflexivity. Qed.

Lemma Qabs_div_unit (a mag : Q) : 0 < mag -> Qabs a <= mag -> Qabs (a / mag) <= 1.
Proof.
  intros Hm Ha. apply Qabs_le_iff in Ha. destruct Ha as [Hlo Hhi].
  apply Qabs_le_iff. split.
  - apply Qle_shift_div_l; [exact Hm | lra].
  - apply Qle_shift_div_r; [exact Hm | lra].
Qed.

Lemma Qabs_mul_unit (s lim : Q) : Qabs s <= 1 -> Qabs (s * lim) <= Qabs lim.
Proof.
  intros Hs. rewrite Qabs_Qmult.
  pose proof (Qabs_nonneg lim) as Hl.
  rewrite <- (Qmult_1_l (Qabs lim)) at 2.
  apply Qmult_le_compat_r; assumption.
Qed.

Lemma Qabs_of_nonneg (q : Q) : 0 <= q -> Qabs q == q.
Proof. apply Qabs_pos. Qed.

(** A unit fraction scaled by a limit and converted to [int16_t] is within
    the limit. *)
Lemma scaled_command_abs (s lim : Q) :
  Qabs s <= 1 -> Qabs (inject_Z (Num.to_int16 (s * lim))) <= Qabs lim.
Proof. intros Hs. apply to_int16_abs_le. apply Qabs_mul_unit. exact Hs. Qed.

Lemma scaled_command_le (s lim : Q) :
  Qabs s <= 1 -> 0 <= lim -> Qabs (inject_Z (Num.to_int16 (s * lim))) <= lim.
Proof.
  intros Hs Hl. rewrite <- (Qabs_of_nonneg lim Hl) at 2.
  apply scaled_command_abs. exact Hs.
Qed.

(** With a limit an [int16_t] holds, the conversion of a scaled unit
    fraction does not wrap: the command is the truncation. *)
Lemma scaled_command_in_range (s lim : Q) :
  Qabs s <= 1 -> Qabs lim <= 32767 ->
  Num.to_int16 (s * lim) = Num.truncate (s * lim).
Proof.
  intros Hs Hl. unfold Num.to_int16. apply wrap16_in_range.
  assert (Hb : inject_Z (Z.abs (Num.truncate (s * lim))) <= inject_Z 32767).
  { eapply Qle_trans; [apply truncate_abs_le|].
    eapply Qle_trans; [apply Qabs_mul_unit; exact Hs | exact Hl]. }
  rewrite <- Zle_Qle in Hb. lia.
Qed.

(** *** The mixing of [driveVector] *)

Lemma vectorOutputs_in_range (forward yaw : Q) :
  -1 <= forward <= 1 -> -1 <= yaw <= 1 ->
  SkidSteerModel.vectorOutputs forward yaw =
    if Num.Qltb 1 (Num.max (Qabs (forward + yaw)) (Qabs (forward - yaw)))
    then ((forward + yaw) / Num.max (Qabs (forward + yaw)) (Qabs (forward - yaw)),
          (forward - yaw) / Num.max (Qabs (forward + yaw)) (Qabs (forward - yaw)))
    else (forward + yaw, forward - yaw).
Proof.
  intros Hf Hy. unfold SkidSteerModel.vectorOutputs.
  rewrite !clamp_unit_id by assumption. reflexivity.
Qed.

Lemma vectorOutputs_unit (iforwardSpeed iyaw : Q) :
  Qabs (fst (SkidSteerModel.vectorOutputs iforwardSpeed iyaw)) <= 1 /\
  Qabs (snd (SkidSteerModel.vectorOutputs iforwardSpeed iyaw)) <= 1.
Proof.
  unfold SkidSteerModel.vectorOutputs.
  set (f := Num.clamp iforwardSpeed (-1) 1).
  set (y := Num.clamp iyaw (-1) 1).
  pose proof (max_spec (Qabs (f + y)) (Qabs (f - y))) as [Hl Hr].
  destruct (Num.Qltb 1 (Num.max (Qabs (f + y)) (Qabs (f - y)))) eqn:E.
  - apply Qltb_lt in E. cbn [fst snd].
    split; apply Qabs_div_unit; try assumption; lra.
  - apply Qltb_ge in E. cbn [fst snd]. split; lra.
Qed.

Lemma driveVector_sends (m : SkidSteerModel.t) (f y : Q) :
  SkidSteerModel.driveVector m f y =
  SkidSteerModel.send m
    (AbstractMotor.moveVelocity
       (Num.to_int16 (fst (SkidSteerModel.vectorOutputs f y) * SkidSteerModel.maxVelocity m)))
    (AbstractMotor.moveVelocity
       (Num.to_int16 (snd (SkidSteerModel.vectorOutputs f y) * SkidSteerModel.maxVelocity m))).
Proof.
  unfold SkidSteerModel.driveVector.
  destruct (SkidSteerModel.vectorOutputs f y) as [l r]. reflexivity.
Qed.

Lemma driveVectorVoltage_sends (m : SkidSteerModel.t) (f y : Q) :
  SkidSteerModel.driveVectorVoltage m f y =
  SkidSteerModel.send m
    (AbstractMotor.moveVoltage
       (Num.to_int16 (fst (SkidSteerModel.vectorOutputs f y) * SkidSteerModel.maxVoltage m)))
    (AbstractMotor.moveVoltage
       (Num.to_int16 (snd (SkidSteerModel.vectorOutputs f y) * SkidSteerModel.maxVoltage m))).
Proof.
  unfold SkidSteerModel.driveVectorVoltage.
  destruct (SkidSteerModel.vectorOutputs f y) as [l r]. reflexivity.
Qed.

Lemma ratio_after_division (a b mag : Q) :
  0 < mag -> ~ b == 0 -> (a / mag) / (b / mag) == a / b.
Proof. intros Hm Hb. field. split; [exact Hb | lra]. Qed.

Lemma ratio_after_scaling (a b k : Q) :
  ~ k == 0 -> ~ b == 0 -> (a * k) / (b * k) == a / b.
Proof. intros Hk Hb. field. split; assumption. Qed.

(** C6.  For [forwardSpeed] and [yaw] in [-1,1], with [leftOutput] and
    [rightOutput] the values [driveVector] scales by [maxVelocity] and
    commands: the scaled outputs, and the [int16_t] velocity commands made
    of them, are at most [maxVelocity] in magnitude; when
    [max(|forward+yaw|, |forward-yaw|) <= 1] the outputs are [forward+yaw]
    and [forward-yaw], so their ratio is [(forward+yaw)/(forward-yaw)]; when
    the maximum exceeds 1 both are divided by it, and the ratio is still
    [(forward+yaw)/(forward-yaw)].  The ratio is that of the outputs, and of
    the scaled outputs, as exact numbers, before the conversion to
    [int16_t]. *)
Theorem driveVector_bounded_and_proportional
  (m : SkidSteerModel.t) (forward yaw : Q) :
  -1 <= forward <= 1 -> -1 <= yaw <= 1 -> 0 <= SkidSteerModel.maxVelocity m ->
  let mag := Num.max (Qabs (forward + yaw)) (Qabs (forward - yaw)) in
  let leftOutput := fst (SkidSteerModel.vectorOutputs forward yaw) in
  let rightOutput := snd (SkidSteerModel.vectorOutputs forward yaw) in
  let maxVelocity := SkidSteerModel.maxVelocity m in
  let leftCommand := Num.to_int16 (leftOutput * maxVelocity) in
  let rightCommand := Num.to_int16 (rightOutput * maxVelocity) in
  SkidSteerModel.driveVector m forward yaw =
    SkidSteerModel.send m (AbstractMotor.moveVelocity leftCommand)
                          (AbstractMotor.moveVelocity rightCommand)
  /\ (Qabs (leftOutput * maxVelocity) <= maxVelocity
      /\ Qabs (rightOutput * maxVelocity) <= maxVelocity)
  /\ (Qabs (inject_Z leftCommand) <= maxVelocity
      /\ Qabs (inject_Z rightCommand) <= maxVelocity)
  /\ (mag <= 1 ->
      leftOutput == forward + yaw /\ rightOutput == forward - yaw)
  /\ (1 < mag ->
      leftOutput == (forward + yaw) / mag /\ rightOutput == (forward - yaw) / mag)
  /\ leftOutput * (forward - yaw) == rightOutput * (forward + yaw)
  /\ (~ forward - yaw == 0 ->
      leftOutput / rightOutput == (forward + yaw) / (forward - yaw))
  /\ (~ forward - yaw == 0 -> ~ maxVelocity == 0 ->
      (leftOutput * maxVelocity) / (rightOutput * maxVelocity)
      == (forward + yaw) / (forward - yaw)).
Proof.
  intros Hf Hy Hv mag leftOutput rightOutput maxVelocity leftCommand rightCommand.
  pose proof (vectorOutputs_unit forward yaw) as [HL HR].
  fold leftOutput in HL. fold rightOutput in HR.
  pose proof (vectorOutputs_in_range forward yaw Hf Hy) as Hout.
  fold mag in Hout.
  assert (Hshape :
    (mag <= 1 /\ leftOutput == forward + yaw /\ rightOutput == forward - yaw)
    \/ (1 < mag /\ leftOutput == (forward + yaw) / mag
        /\ rightOutput == (forward - yaw) / mag)).
  { unfold leftOutput, rightOutput. rewrite Hout.
    destruct (Num.Qltb 1 mag) eqn:E.
    - apply Qltb_lt in E. right. cbn [fst snd]. repeat split; try reflexivity. exact E.
    - apply Qltb_ge in E. left. cbn [fst snd]. repeat split; try reflexivity. exact E. }
  assert (Hratio : ~ forward - yaw == 0 ->
                   leftOutput / rightOutput == (forward + yaw) / (forward - yaw)).
  { intros Hnz. destruct Hshape as [(_ & El & Er) | (Hm & El & Er)].
    - rewrite El, Er. reflexivity.
    - rewrite El, Er. apply ratio_after_division; [lra | exact Hnz]. }
  split; [apply driveVector_sends|].
  split.
  { split; (eapply Qle_trans; [apply Qabs_mul_unit; assumption|]);
      rewrite Qabs_of_nonneg by exact Hv; apply Qle_refl. }
  split.
  { split; apply scaled_command_le; assumption. }
  split.
  { intros Hm. destruct Hshape as [(_ & El & Er) | (Hm' & _)]; [tauto | lra]. }
  split.
  { intros Hm. destruct Hshape as [(Hm' & _) | (_ & El & Er)]; [lra | tauto]. }
  split.
  { destruct Hshape as [(_ & El & Er) | (Hm & El & Er)]; rewrite El, Er.
    - ring.
    - field. lra. }
  split; [exact Hratio|].
  intros Hnz Hk.
  assert (Hr : ~ rightOutput == 0).
  { destruct Hshape as [(_ & El & Er) | (Hm & El & Er)]; rewrite Er.
    - exact Hnz.
    - intro E0. apply Hnz.
      assert (E1 : (forward - yaw) / mag * mag == 0) by (rewrite E0; ring).
      rewrite <- E1. field. lra. }
  rewrite ratio_after_scaling by assumption. apply Hratio. exact Hnz.
Qed.

(** C6 at forward 1/2, yaw 1/4 (no normalisation) on a model of maximum
    velocity 600. *)
Lemma driveVector_bounded_and_proportional_witness :
  SkidSteerModel.lastCommand
    (SkidSteerModel.leftSideMotor
       (SkidSteerModel.driveVector
          (SkidSteerModel.SkidSteerModel [] [] 0 0 600 12000) (1#2) (1#4)))
  = Some 450%Z
  /\ fst (SkidSteerModel.vectorOutputs (1#2) (1#4))
     * ((1#2) - (1#4))
     == snd (SkidSteerModel.vectorOutputs (1#2) (1#4)) * ((1#2) + (1#4)).
Proof.
  pose proof (driveVector_bounded_and_proportional
                (SkidSteerModel.SkidSteerModel [] [] 0 0 600 12000) (1#2) (1#4)) as H.
  cbv zeta in H.
  destruct H as (Hsend & _ & _ & _ & _ & Hcross & _).
  - split; discriminate.
  - split; discriminate.
  - discriminate.
  - split; [rewrite Hsend; reflexivity | exact Hcross].
Defined.

(** *** The deadbands of [tank] and [arcade] *)

Lemma tankSpeed_below (x t : Q) :
  Qabs (Num.clamp x (-1) 1) < t -> SkidSteerModel.tankSpeed x t = 0.
Proof.
  intros H. unfold SkidSteerModel.tankSpeed.
  apply Qltb_lt in H. rewrite H. reflexivity.
Qed.

Lemma tankSpeed_from (x t : Q) :
  t <= Qabs (Num.clamp x (-1) 1) ->
  SkidSteerModel.tankSpeed x t = Num.clamp x (-1) 1.
Proof.
  intros H. unfold SkidSteerModel.tankSpeed.
  apply Qltb_ge in H. rewrite H. reflexivity.
Qed.

Lemma arcadeInput_upto (x t : Q) :
  Qabs (Num.clamp x (-1) 1) <= t -> SkidSteerModel.arcadeInput x t = 0.
Proof.
  intros H. unfold SkidSteerModel.arcadeInput.
  apply Qle_bool_iff in H. rewrite H. reflexivity.
Qed.

Lemma arcadeInput_above (x t : Q) :
  t < Qabs (Num.clamp x (-1) 1) ->
  SkidSteerModel.arcadeInput x t = Num.clamp x (-1) 1.
Proof.
  intros H. unfold SkidSteerModel.arcadeInput.
  destruct (Qle_bool (Qabs (Num.clamp x (-1) 1)) t) eqn:E; [|reflexivity].
  apply Qle_bool_iff in E. exfalso. exact (Qlt_not_le _ _ H E).
Qed.

Lemma tankSpeed_unit (x t : Q) : Qabs (SkidSteerModel.tankSpeed x t) <= 1.
Proof.
  unfold SkidSteerModel.tankSpeed.
  destruct (Num.Qltb _ t); [discriminate | apply clamp_unit_abs].
Qed.

(** C7, as stated, fails: with [x = 2] and [t = 2] the magnitude of the
    input equals the threshold and is not below it, yet [tank] zeroes the
    left side (with threshold 0 the same input commands full voltage): the
    deadband looks at the input after it was clamped to [-1,1]. *)
Lemma tank_deadband_reads_clamped_input :
  Qabs 2 == 2 /\ ~ Qabs 2 < 2
  /\ SkidSteerModel.tankSpeed 2 2 = 0
  /\ SkidSteerModel.lastCommand
       (SkidSteerModel.leftSideMotor
          (SkidSteerModel.tank (SkidSteerModel.SkidSteerModel [] [] 0 0 600 12000) 2 0 2))
     = Some 0%Z
  /\ SkidSteerModel.lastCommand
       (SkidSteerModel.leftSideMotor
          (SkidSteerModel.tank (SkidSteerModel.SkidSteerModel [] [] 0 0 600 12000) 2 0 0))
     = Some 12000%Z.
Proof.
  split; [reflexivity|].
  split; [intro H; discriminate H|].
  repeat split; reflexivity.
Qed.

(** C7, amended.  The deadbands act on the input clamped to [-1,1].
    [tank] commands each side from its own input alone; it zeroes a side
    exactly when the clamped input is below the threshold in magnitude, and
    passes the clamped input on otherwise; an input below the threshold in
    magnitude is zeroed whatever the other input is.  [arcade] zeroes an
    input exactly when its clamped magnitude is at most the threshold, so
    with both inputs at most the threshold in magnitude both sides are
    commanded 0.  For an input within [-1,1] whose magnitude equals the
    threshold, [tank] passes it on and [arcade] zeroes it. *)
Theorem deadband_tank_strict_arcade_inclusive
  (m : SkidSteerModel.t) (x y t : Q) :
  let clamped := Num.clamp x (-1) 1 in
  SkidSteerModel.tank m x y t =
    SkidSteerModel.send m
      (AbstractMotor.moveVoltage
         (Num.to_int16 (SkidSteerModel.tankSpeed x t * SkidSteerModel.maxVoltage m)))
      (AbstractMotor.moveVoltage
         (Num.to_int16 (SkidSteerModel.tankSpeed y t * SkidSteerModel.maxVoltage m)))
  /\ (Qabs clamped < t -> SkidSteerModel.tankSpeed x t = 0)
  /\ (t <= Qabs clamped -> SkidSteerModel.tankSpeed x t = clamped)
  /\ (Qabs x < t ->
      SkidSteerModel.tankSpeed x t = 0
      /\ SkidSteerModel.leftSideMotor (SkidSteerModel.tank m x y t)
         = AbstractMotor.moveVoltage 0 :: SkidSteerModel.leftSideMotor m)
  /\ (Qabs clamped <= t -> SkidSteerModel.arcadeInput x t = 0)
  /\ (t < Qabs clamped -> SkidSteerModel.arcadeInput x t = clamped)
  /\ (Qabs x <= t -> Qabs y <= t ->
      SkidSteerModel.arcade m x y t =
      SkidSteerModel.send m (AbstractMotor.moveVoltage 0) (AbstractMotor.moveVoltage 0))
  /\ (-1 <= x <= 1 -> Qabs x == t ->
      SkidSteerModel.tankSpeed x t = x /\ SkidSteerModel.arcadeInput x t = 0).
Proof.
  intros clamped.
  split; [reflexivity|].
  split; [apply tankSpeed_below|].
  split; [apply tankSpeed_from|].
  split.
  { intros Hx.
    assert (E : SkidSteerModel.tankSpeed x t = 0).
    { apply tankSpeed_below. eapply Qle_lt_trans; [apply clamp_unit_abs_le | exact Hx]. }
    split; [exact E|].
    unfold SkidSteerModel.tank. rewrite E. reflexivity. }
  split; [apply arcadeInput_upto|].
  split; [apply arcadeInput_above|].
  split.
  { intros Hx Hy.
    unfold SkidSteerModel.arcade, SkidSteerModel.arcadeOutputs.
    rewrite (arcadeInput_upto x t)
      by (eapply Qle_trans; [apply clamp_unit_abs_le | exact Hx]).
    rewrite (arcadeInput_upto y t)
      by (eapply Qle_trans; [apply clamp_unit_abs_le | exact Hy]).
    reflexivity. }
  intros Hr Ht.
  assert (Ec : Num.clamp x (-1) 1 = x) by (apply clamp_unit_id; exact Hr).
  split.
  - rewrite tankSpeed_from; [exact Ec|]. rewrite Ec, Ht. apply Qle_refl.
  - apply arcadeInput_upto. rewrite Ec, Ht. apply Qle_refl.
Qed.

(** C7 amended, at the inputs 1/2 and 1/4 with threshold 1/2. *)
Lemma deadband_tank_strict_arcade_inclusive_witness :
  SkidSteerModel.tankSpeed (1#2) (1#2) = 1#2
  /\ SkidSteerModel.arcadeInput (1#2) (1#2) = 0
  /\ SkidSteerModel.tankSpeed (1#4) (1#2) = 0
  /\ SkidSteerModel.arcade (SkidSteerModel.SkidSteerModel [] [] 0 0 600 12000)
       (1#2) (1#4) (1#2)
     = SkidSteerModel.send (SkidSteerModel.SkidSteerModel [] [] 0 0 600 12000)
         (AbstractMotor.moveVoltage 0) (AbstractMotor.moveVoltage 0).
Proof.
  destruct (deadband_tank_strict_arcade_inclusive
              (SkidSteerModel.SkidSteerModel [] [] 0 0 600 12000) (1#2) (1#4) (1#2))
    as (_ & _ & _ & _ & _ & _ & Harc & Heq).
  destruct (deadband_tank_strict_arcade_inclusive
              (SkidSteerModel.SkidSteerModel [] [] 0 0 600 12000) (1#4) (1#2) (1#2))
    as (_ & Hbelow & _).
  destruct Heq as [Ht Ha]; [split; discriminate | reflexivity |].
  split; [exact Ht|]. split; [exact Ha|].
  split; [apply Hbelow; reflexivity|].
  apply Harc; discriminate.
Defined.

(** *** The limits on what the motors are sent *)

Lemma issued_one {A : Type} (c : A) (l : list A) :
  firstn (length (c :: l) - length l) (c :: l) = [c].
Proof.
  replace (length (c :: l) - length l)%nat with 1%nat
    by (change (length (c :: l)) with (S (length l)); lia).
  reflexivity.
Qed.

Lemma issued_nothing {A : Type} (l : list A) :
  firstn (length l - length l) l = [].
Proof. rewrite Nat.sub_diag. reflexivity. Qed.

Lemma issued_by_send (m : SkidSteerModel.t) (l r : AbstractMotor.call) :
  SkidSteerModel.issued (SkidSteerModel.leftSideMotor m)
    (SkidSteerModel.leftSideMotor (SkidSteerModel.send m l r)) = [l]
  /\ SkidSteerModel.issued (SkidSteerModel.rightSideMotor m)
       (SkidSteerModel.rightSideMotor (SkidSteerModel.send m l r)) = [r].
Proof. split; apply issued_one. Qed.

Lemma clamped_neg_unit (s : Q) : Qabs (-1 * Num.clamp s (-1) 1) <= 1.
Proof.
  pose proof (clamp_unit_bounds s) as [Hlo Hhi].
  apply Qabs_le_iff. split; lra.
Qed.

(** Every output operation respects the magnitudes of the two limits,
    whatever their signs. *)
Lemma perform_within_abs_limits (m : SkidSteerModel.t) (o : SkidSteerModel.operation) :
  let ok := SkidSteerModel.withinLimits (Qabs (SkidSteerModel.maxVelocity m))
                                        (Qabs (SkidSteerModel.maxVoltage m)) in
  Forall ok (SkidSteerModel.issued (SkidSteerModel.leftSideMotor m)
               (SkidSteerModel.leftSideMotor (SkidSteerModel.perform m o)))
  /\ Forall ok (SkidSteerModel.issued (SkidSteerModel.rightSideMotor m)
                  (SkidSteerModel.rightSideMotor (SkidSteerModel.perform m o))).
Proof.
  intros ok.
  assert (Hsend : forall l r, ok l -> ok r ->
            Forall ok (SkidSteerModel.issued (SkidSteerModel.leftSideMotor m)
                         (SkidSteerModel.leftSideMotor (SkidSteerModel.send m l r)))
            /\ Forall ok (SkidSteerModel.issued (SkidSteerModel.rightSideMotor m)
                            (SkidSteerModel.rightSideMotor (SkidSteerModel.send m l r)))).
  { intros l r Hl Hr. destruct (issued_by_send m l r) as [El Er].
    rewrite El, Er. split; constructor; auto. }
  destruct o as [s | s | f y | f y | l r th | f y th | s | s | ]; cbn [SkidSteerModel.perform].
  - apply Hsend; apply scaled_command_abs, clamp_unit_abs.
  - apply Hsend; [apply scaled_command_abs, clamp_unit_abs|].
    apply scaled_command_abs, clamped_neg_unit.
  - rewrite driveVector_sends.
    apply Hsend; apply scaled_command_abs, vectorOutputs_unit.
  - rewrite driveVectorVoltage_sends.
    apply Hsend; apply scaled_command_abs, vectorOutputs_unit.
  - apply Hsend; apply scaled_command_abs, tankSpeed_unit.
  - unfold SkidSteerModel.arcade.
    destruct (SkidSteerModel.arcadeOutputs f y th) as [lo ro].
    apply Hsend; apply scaled_command_abs, clamp_unit_abs.
  - unfold SkidSteerModel.left, SkidSteerModel.sendLeft, SkidSteerModel.issued.
    cbn [SkidSteerModel.leftSideMotor SkidSteerModel.rightSideMotor].
    rewrite issued_one, issued_nothing.
    split; constructor; [apply scaled_command_abs, clamp_unit_abs | constructor].
  - unfold SkidSteerModel.right, SkidSteerModel.sendRight, SkidSteerModel.issued.
    cbn [SkidSteerModel.leftSideMotor SkidSteerModel.rightSideMotor].
    rewrite issued_one, issued_nothing.
    split; constructor; [apply scaled_command_abs, clamp_unit_abs | constructor].
  - apply Hsend; apply Qabs_nonneg.
Qed.

Lemma withinLimits_weaken (vel volt vel' volt' : Q) (c : AbstractMotor.call) :
  vel == vel' -> volt == volt' ->
  SkidSteerModel.withinLimits vel volt c -> SkidSteerModel.withinLimits vel' volt' c.
Proof.
  intros Ev Eo. destruct c; cbn [SkidSteerModel.withinLimits]; intros Hc; auto.
  - rewrite <- Ev. exact Hc.
  - rewrite <- Eo. exact Hc.
Qed.

(** C8.  With limits that are not negative, every output operation of the
    model ([forward], [rotate], [driveVector], [driveVectorVoltage], [tank],
    [arcade], [left], [right], [stop]), on any inputs, sends each motor only
    velocity commands of magnitude at most [maxVelocity] and voltage
    commands of magnitude at most [maxVoltage], and leaves the limits as
    they are. *)
Theorem output_commands_within_limits
  (m : SkidSteerModel.t) (o : SkidSteerModel.operation) :
  0 <= SkidSteerModel.maxVelocity m -> 0 <= SkidSteerModel.maxVoltage m ->
  let ok := SkidSteerModel.withinLimits (SkidSteerModel.maxVelocity m)
                                        (SkidSteerModel.maxVoltage m) in
  Forall ok (SkidSteerModel.issued (SkidSteerModel.leftSideMotor m)
               (SkidSteerModel.leftSideMotor (SkidSteerModel.perform m o)))
  /\ Forall ok (SkidSteerModel.issued (SkidSteerModel.rightSideMotor m)
                  (SkidSteerModel.rightSideMotor (SkidSteerModel.perform m o)))
  /\ SkidSteerModel.maxVelocity (SkidSteerModel.perform m o) = SkidSteerModel.maxVelocity m
  /\ SkidSteerModel.maxVoltage (SkidSteerModel.perform m o) = SkidSteerModel.maxVoltage m.
Proof.
  intros Hv Ho ok.
  destruct (perform_within_abs_limits m o) as [Hl Hr].
  split; [|split].
  - eapply Forall_impl; [|exact Hl]. intros c.
    apply withinLimits_weaken; apply Qabs_of_nonneg; assumption.
  - eapply Forall_impl; [|exact Hr]. intros c.
    apply withinLimits_weaken; apply Qabs_of_nonneg; assumption.
  - destruct o; cbn [SkidSteerModel.perform];
      rewrite ?driveVector_sends, ?driveVectorVoltage_sends;
      try (unfold SkidSteerModel.arcade;
           destruct (SkidSteerModel.arcadeOutputs _ _ _));
      split; reflexivity.
Qed.

(** C8 at [arcade(3, -2, 1/10)] on a model with limits 600 and 12000. *)
Lemma output_commands_within_limits_witness :
  Forall (SkidSteerModel.withinLimits 600 12000)
    (SkidSteerModel.issued []
       (SkidSteerModel.leftSideMotor
          (SkidSteerModel.perform (SkidSteerModel.SkidSteerModel [] [] 0 0 600 12000)
             (SkidSteerModel.op_arcade 3 (-2) (1#10))))).
Proof.
  apply (output_commands_within_limits
           (SkidSteerModel.SkidSteerModel [] [] 0 0 600 12000)
           (SkidSteerModel.op_arcade 3 (-2) (1#10))); discriminate.
Defined.

(** *** Starting a movement *)

Section Movements.

Import ChassisControllerPID.

Context {M : Type}.

Local Abbreviation pid_calls := IterativePosPIDController.calls.
Local Abbreviation pid_target := IterativePosPIDController.getTarget.
Local Abbreviation pid_disabled := IterativePosPIDController.isDisabled.

(** C3.  [moveDistanceAsync(target)] resets, then enables, the distance and
    the angle PID, disables the turn PID, sets the mode to [distance], sets
    the target of the distance PID to
    [target * scales.straight * gearsetRatioPair.ratio] and that of the
    angle PID to 0, sets [newMovement] and clears [doneLooping]; it touches
    nothing else.  With scales [{2, 2}] and gear ratio 1,
    [moveDistanceAsync(6 m)] sets the target of the distance PID to 12 and
    that of the angle PID to 0. *)
Theorem moveDistanceAsync_sets_up_distance_mode (c : t M) (itarget : QLength) :
  let newTarget :=
    convert_meter itarget * straight (scales c) * AbstractMotor.ratio (gearsetRatioPair c) in
  let c' := moveDistanceAsync c itarget in
  (pid_calls (distancePid c') =
     IterativePosPIDController.setTarget newTarget
     :: IterativePosPIDController.flipDisable false
     :: IterativePosPIDController.reset :: pid_calls (distancePid c)
   /\ pid_calls (anglePid c') =
        IterativePosPIDController.setTarget 0
        :: IterativePosPIDController.flipDisable false
        :: IterativePosPIDController.reset :: pid_calls (anglePid c)
   /\ pid_calls (turnPid c') =
        IterativePosPIDController.flipDisable true :: pid_calls (turnPid c))
  /\ (pid_disabled (distancePid c') = false
      /\ pid_disabled (anglePid c') = false
      /\ pid_disabled (turnPid c') = true)
  /\ mode c' = distance
  /\ (pid_target (distancePid c') = newTarget /\ pid_target (anglePid c') = 0)
  /\ (newMovement c' = true /\ doneLooping c' = false)
  /\ (model c' = model c /\ scales c' = scales c
      /\ gearsetRatioPair c' = gearsetRatioPair c /\ normalTurns c' = normalTurns c
      /\ dtorCalled c' = dtorCalled c /\ task c' = task c)
  /\ (straight (scales c) == 2 -> AbstractMotor.ratio (gearsetRatioPair c) == 1 ->
      convert_meter itarget == 6 ->
      pid_target (distancePid c') == 12 /\ pid_target (anglePid c') == 0).
Proof.
  intros newTarget c'.
  split; [repeat split|].
  split; [repeat split|].
  split; [reflexivity|].
  split; [split; reflexivity|].
  split; [split; reflexivity|].
  split; [repeat split|].
  intros Hs Hr Ht.
  change (pid_target (distancePid c')) with newTarget.
  change (pid_target (anglePid c')) with 0.
  split; [|reflexivity].
  unfold newTarget. rewrite Hs, Hr, Ht. reflexivity.
Qed.

(** C4.  [turnAngleAsync(target)] resets, then enables, the turn PID,
    disables the distance and the angle PID, sets the mode to [angle], sets
    the target of the turn PID to
    [target * scales.turn * gearsetRatioPair.ratio * boolToSign(normalTurns)],
    sets [newMovement] and clears [doneLooping]; it touches nothing else.
    With scales [{2, 2}] and gear ratio 1, [turnAngleAsync(6 deg)] sets the
    target of the turn PID to 12 when turns are normal and to -12 when they
    are mirrored. *)
Theorem turnAngleAsync_sets_up_angle_mode (c : t M) (idegTarget : QAngle) :
  let newTarget :=
    convert_degree idegTarget * turn (scales c) * AbstractMotor.ratio (gearsetRatioPair c)
    * inject_Z (boolToSign (normalTurns c)) in
  let c' := turnAngleAsync c idegTarget in
  (pid_calls (turnPid c') =
     IterativePosPIDController.setTarget newTarget
     :: IterativePosPIDController.flipDisable false
     :: IterativePosPIDController.reset :: pid_calls (turnPid c)
   /\ pid_calls (distancePid c') =
        IterativePosPIDController.flipDisable true :: pid_calls (distancePid c)
   /\ pid_calls (anglePid c') =
        IterativePosPIDController.flipDisable true :: pid_calls (anglePid c))
  /\ (pid_disabled (turnPid c') = false
      /\ pid_disabled (distancePid c') = true
      /\ pid_disabled (anglePid c') = true)
  /\ mode c' = angle
  /\ pid_target (turnPid c') = newTarget
  /\ (newMovement c' = true /\ doneLooping c' = false)
  /\ (model c' = model c /\ scales c' = scales c
      /\ gearsetRatioPair c' = gearsetRatioPair c /\ normalTurns c' = normalTurns c
      /\ dtorCalled c' = dtorCalled c /\ task c' = task c)
  /\ (turn (scales c) == 2 -> AbstractMotor.ratio (gearsetRatioPair c) == 1 ->
      convert_degree idegTarget == 6 ->
      pid_target (turnPid c') == inject_Z (boolToSign (normalTurns c)) * 12
      /\ (normalTurns c = true -> pid_target (turnPid c') == 12)
      /\ (normalTurns c = false -> pid_target (turnPid c') == -12)).
Proof.
  intros newTarget c'.
  split; [repeat split|].
  split; [repeat split|].
  split; [reflexivity|].
  split; [reflexivity|].
  split; [split; reflexivity|].
  split; [repeat split|].
  intros Hs Hr Ht.
  change (pid_target (turnPid c')) with newTarget.
  assert (E : newTarget == inject_Z (boolToSign (normalTurns c)) * 12).
  { unfold newTarget. rewrite Hs, Hr, Ht. ring. }
  split; [exact E|].
  split; intros Hn; rewrite E, Hn; reflexivity.
Qed.

End Movements.

(** C3 on the example controller (scales [{2, 2}], ratio 1), 6 meters. *)
Lemma moveDistanceAsync_sets_up_distance_mode_witness :
  IterativePosPIDController.getTarget
    (ChassisControllerPID.distancePid
       (ChassisControllerPID.moveDistanceAsync Scenario.controller {| convert_meter := 6 |}))
  == 12
  /\ IterativePosPIDController.getTarget
       (ChassisControllerPID.anglePid
          (ChassisControllerPID.moveDistanceAsync Scenario.controller {| convert_meter := 6 |}))
     == 0.
Proof.
  apply (moveDistanceAsync_sets_up_distance_mode Scenario.controller {| convert_meter := 6 |});
    reflexivity.
Defined.

(** C4 on the example controller (scales [{2, 2}], ratio 1, normal turns),
    6 degrees. *)
Lemma turnAngleAsync_sets_up_angle_mode_witness :
  IterativePosPIDController.getTarget
    (ChassisControllerPID.turnPid
       (ChassisControllerPID.turnAngleAsync Scenario.controller {| convert_degree := 6 |}))
  == 12.
Proof.
  apply (turnAngleAsync_sets_up_angle_mode Scenario.controller {| convert_degree := 6 |});
    reflexivity.
Defined.

(** *** The background loop *)

Section Loop.

Import ChassisControllerPID.

Context {M : Type} {chassisModel : ChassisModel M}
        {pidBehaviour : IterativePosPIDController.Behaviour}.

Local Abbreviation pid_calls := IterativePosPIDController.calls.

Lemma modeType_eqb_eq (a b : modeType) : modeType_eqb a b = true <-> a = b.
Proof. destruct a, b; cbn; split; intro E; congruence. Qed.

Lemma loop_body_idle (l : LoopLocals) (c : t M) :
  doneLooping c = true -> loop_body l c = (l, c).
Proof. intros E. unfold loop_body. rewrite E. reflexivity. Qed.

(** C5.  A pass of the loop with [doneLooping] false.  If the mode differs
    from [pastMode], the mode the previous such pass left ([none] before
    the first), or [newMovement] is set, the sensor values are taken as the
    new baseline and [newMovement] is cleared.  Then, with the deltas of the
    sensor values against the baseline: in mode [distance] the distance PID
    is stepped on [(leftDelta + rightDelta) / 2], the angle PID on
    [leftDelta - rightDelta], and the model is sent [driveVector] of the two
    outputs; in mode [angle] the turn PID is stepped on
    [leftDelta - rightDelta] and the model is sent [rotate] of its output;
    in mode [none] no PID is stepped and the model is sent nothing.  The
    pass leaves its mode in [pastMode].  The sums and differences are those
    of [int32_t]. *)
Theorem loop_pass_computes_mode_correction (l : LoopLocals) (c : t M) :
  doneLooping c = false ->
  let rebase := negb (modeType_eqb (mode c) (pastMode l)) || newMovement c in
  let baseline := if rebase then getSensorVals (model c) else encStartVals l in
  let leftDelta := Num.sub32 (fst (getSensorVals (model c))) (fst baseline) in
  let rightDelta := Num.sub32 (snd (getSensorVals (model c))) (snd baseline) in
  let distanceElapsed := inject_Z (Num.add32 leftDelta rightDelta) / 2 in
  let angleChange := inject_Z (Num.sub32 leftDelta rightDelta) in
  let l' := fst (loop_body l c) in
  let c' := snd (loop_body l c) in
  (rebase = true <-> mode c <> pastMode l \/ newMovement c = true)
  /\ encStartVals l' = baseline
  /\ newMovement c' = (if rebase then false else newMovement c)
  /\ pastMode l' = mode c
  /\ (mode c' = mode c /\ doneLooping c' = false)
  /\ match mode c with
     | distance =>
         pid_calls (distancePid c') =
           IterativePosPIDController.step distanceElapsed :: pid_calls (distancePid c)
         /\ pid_calls (anglePid c') =
              IterativePosPIDController.step angleChange :: pid_calls (anglePid c)
         /\ turnPid c' = turnPid c
         /\ model c' =
              driveVector (model c)
                (IterativePosPIDController.stepOutput (distancePid c) distanceElapsed)
                (IterativePosPIDController.stepOutput (anglePid c) angleChange)
     | angle =>
         pid_calls (turnPid c') =
           IterativePosPIDController.step angleChange :: pid_calls (turnPid c)
         /\ distancePid c' = distancePid c
         /\ anglePid c' = anglePid c
         /\ model c' =
              rotate (model c)
                (IterativePosPIDController.stepOutput (turnPid c) angleChange)
     | none =>
         distancePid c' = distancePid c /\ anglePid c' = anglePid c
         /\ turnPid c' = turnPid c /\ model c' = model c
     end.
Proof.
  intros Hd rebase baseline leftDelta rightDelta distanceElapsed angleChange l' c'.
  split.
  { unfold rebase. rewrite orb_true_iff, negb_true_iff.
    split; intros [Hm | Hn]; auto; left.
    - intro E. apply modeType_eqb_eq in E. congruence.
    - destruct (modeType_eqb (mode c) (pastMode l)) eqn:E; [|reflexivity].
      apply modeType_eqb_eq in E. contradiction. }
  unfold l', c', loop_body. rewrite Hd. cbn [negb].
  fold rebase. fold baseline.
  unfold distanceElapsed, angleChange, leftDelta, rightDelta.
  destruct rebase; destruct (mode c) eqn:Em; cbn; rewrite ?Em; cbn;
    repeat split; auto.
Qed.

(** After the destructor ran, or once the task was notified, [loop] makes
    no further pass. *)
Lemma loop_from_ends (world : list (World M)) (notified : bool)
  (l : LoopLocals) (c : t M) :
  dtorCalled c = true \/ notified = true ->
  loop_from world notified l c = (l, c).
Proof.
  intros [E | E]; destruct world; cbn [loop_from]; rewrite E;
    rewrite ?andb_false_r; reflexivity.
Qed.

(** While it runs, [loop] makes a pass, sleeps, and goes on in the world
    the delay left. *)
Lemma loop_from_pass (w : World M) (world : list (World M)) (l : LoopLocals) (c : t M) :
  dtorCalled c = false ->
  loop_from (w :: world) false l c =
  loop_from world (notifyTake w) (fst (loop_body l c)) (interfere w (snd (loop_body l c))).
Proof.
  intros E. cbn [loop_from]. rewrite E. cbn [negb andb].
  destruct (loop_body l c). reflexivity.
Qed.

(** Where the [int32_t] operations do not wrap, the readings of C5 are the
    sum and the difference of the deltas as integers. *)
Lemma loop_readings_without_wrap (l0 r0 l1 r1 : Z) :
  let int32 z := (-2147483648 <= z <= 2147483647)%Z in
  int32 (l1 - l0)%Z -> int32 (r1 - r0)%Z ->
  int32 ((l1 - l0) + (r1 - r0))%Z -> int32 ((l1 - l0) - (r1 - r0))%Z ->
  Num.add32 (Num.sub32 l1 l0) (Num.sub32 r1 r0) = ((l1 - l0) + (r1 - r0))%Z
  /\ Num.sub32 (Num.sub32 l1 l0) (Num.sub32 r1 r0) = ((l1 - l0) - (r1 - r0))%Z.
Proof.
  intros int32 Hl Hr Hs Hd. unfold Num.add32, Num.sub32.
  rewrite (wrap32_in_range (l1 - l0)) by exact Hl.
  rewrite (wrap32_in_range (r1 - r0)) by exact Hr.
  split; apply wrap32_in_range; assumption.
Qed.

End Loop.

(** C5 on the example controller once [moveDistanceAsync(6 m)] was called:
    the first pass takes the baseline and clears [newMovement]. *)
Lemma loop_pass_computes_mode_correction_witness :
  ChassisControllerPID.newMovement
    (snd (ChassisControllerPID.loop_body (pidBehaviour := Scenario.proportional)
            (ChassisControllerPID.loop_enter Scenario.controller)
            (ChassisControllerPID.moveDistanceAsync Scenario.controller
               {| convert_meter := 6 |})))
  = false.
Proof.
  apply (loop_pass_computes_mode_correction (pidBehaviour := Scenario.proportional)
           (ChassisControllerPID.loop_enter Scenario.controller)
           (ChassisControllerPID.moveDistanceAsync Scenario.controller
              {| convert_meter := 6 |})).
  reflexivity.
Defined.

(** *** Construction *)

(** C9.  Constructing a [ChassisControllerPID] with a gearset whose ratio is
    0 throws [std::invalid_argument] to the caller, the shared model being
    as it was passed in: nothing was sent to it.  With any other ratio the
    constructor returns the controller, holding the three PID controllers in
    the order given, the gearset and the scales, its model configured with
    the gearset and with degrees as encoder units. *)
Theorem zero_gear_ratio_aborts_construction
  {M : Type} {chassisModel : ChassisModel M}
  (defaults : ChassisControllerPID.MemberDefaults) (imodel : M)
  (idistanceController iturnController iangleController : IterativePosPIDController.t)
  (igearset : AbstractMotor.GearsetRatioPair) (iscales : ChassisScales) :
  let constructed :=
    ChassisControllerPID.ChassisControllerPID defaults imodel
      idistanceController iturnController iangleController igearset iscales in
  (AbstractMotor.ratio igearset == 0 ->
   constructed =
     ChassisControllerPID.threw
       (invalid_argument ChassisControllerPID.ratio_is_zero_message) imodel)
  /\ (~ AbstractMotor.ratio igearset == 0 ->
      exists c,
        constructed = ChassisControllerPID.built c
        /\ ChassisControllerPID.model c =
             setEncoderUnits
               (setGearing imodel (AbstractMotor.internalGearset igearset))
               AbstractMotor.degrees
        /\ ChassisControllerPID.distancePid c = idistanceController
        /\ ChassisControllerPID.turnPid c = iturnController
        /\ ChassisControllerPID.anglePid c = iangleController
        /\ ChassisControllerPID.gearsetRatioPair c = igearset
        /\ ChassisControllerPID.scales c = iscales
        /\ ChassisControllerPID.task c = None).
Proof.
  intros constructed. unfold constructed, ChassisControllerPID.ChassisControllerPID.
  split; intros Hr.
  - apply Qeq_bool_iff in Hr. rewrite Hr. reflexivity.
  - destruct (Qeq_bool (AbstractMotor.ratio igearset) 0) eqn:E.
    + apply Qeq_bool_iff in E. contradiction.
    + eexists. split; [reflexivity|]. repeat split.
Qed.

(** C9 on the example robot: ratio 0 throws, ratio 1 builds the example
    controller. *)
Lemma zero_gear_ratio_aborts_construction_witness :
  ChassisControllerPID.ChassisControllerPID Scenario.defaults Scenario.robot
    (Scenario.pidOf 1) (Scenario.pidOf 1) (Scenario.pidOf 1)
    (Scenario.directDrive 0) Scenario.scalesTwo
  = ChassisControllerPID.threw
      (invalid_argument ChassisControllerPID.ratio_is_zero_message) Scenario.robot
  /\ exists c,
       ChassisControllerPID.ChassisControllerPID Scenario.defaults Scenario.robot
         (Scenario.pidOf 1) (Scenario.pidOf 1) (Scenario.pidOf 1)
         (Scenario.directDrive 1) Scenario.scalesTwo
       = ChassisControllerPID.built c.
Proof.
  split.
  - apply (zero_gear_ratio_aborts_construction Scenario.defaults Scenario.robot
             (Scenario.pidOf 1) (Scenario.pidOf 1) (Scenario.pidOf 1)
             (Scenario.directDrive 0) Scenario.scalesTwo).
    reflexivity.
  - destruct (zero_gear_ratio_aborts_construction Scenario.defaults Scenario.robot
                (Scenario.pidOf 1) (Scenario.pidOf 1) (Scenario.pidOf 1)
                (Scenario.directDrive 1) Scenario.scalesTwo) as [_ Hb].
    destruct Hb as (c & Ec & _); [discriminate|].
    exists c. exact Ec.
Defined.

Lemma example_controller_is_constructed :
  ChassisControllerPID.ChassisControllerPID Scenario.defaults Scenario.robot
    (Scenario.pidOf 1) (Scenario.pidOf 1) (Scenario.pidOf 1)
    (Scenario.directDrive 1) Scenario.scalesTwo
  = ChassisControllerPID.built Scenario.controller.
Proof. reflexivity. Qed.

(** *** The builder *)

Section BuilderGains.

Context (xDriveOps : ChassisModel XDriveModel).
Context (defaults : ChassisControllerPID.MemberDefaults).

Local Abbreviation build := (ChassisControllerBuilder.build xDriveOps defaults).
Local Abbreviation pid_gains := IterativePosPIDController.gains.
Local Abbreviation pid_filter := IterativePosPIDController.derivativeFilter.

(** C10.  [withGains] is called as the header declares it, with the
    distance, the angle and the turn gains in that order.  Its definition
    stores the second argument in the member [turnGains] and the third in
    [angleGains]; [buildCCPID] passes the controller made of [angleGains]
    and [angleFilter] where the constructor takes the turn controller, and
    the one made of [turnGains] and [turnFilter] where it takes the angle
    controller.  So the [ChassisControllerPID] that [build] returns has a
    turn controller with the caller's turn gains and an angle controller
    with the caller's angle gains, the turn controller holding the builder's
    angle filter and the angle controller its turn filter.  With motors set
    and a gear ratio other than 0, [build] returns such a controller. *)
Theorem withGains_and_buildCCPID_swaps_cancel
  (b : ChassisControllerBuilder.t)
  (distanceGains angleGains turnGains : IterativePosPIDController.Gains) :
  let configured :=
    ChassisControllerBuilder.withGains b distanceGains angleGains turnGains in
  (ChassisControllerBuilder.distanceGains configured = distanceGains
   /\ ChassisControllerBuilder.turnGains configured = angleGains
   /\ ChassisControllerBuilder.angleGains configured = turnGains
   /\ ChassisControllerBuilder.hasGains configured = true)
  /\ (forall b' c,
        build configured = (b', ChassisControllerBuilder.builtPID c) ->
        (pid_gains (ChassisControllerPID.distancePid c) = distanceGains
         /\ pid_gains (ChassisControllerPID.turnPid c) = turnGains
         /\ pid_gains (ChassisControllerPID.anglePid c) = angleGains)
        /\ (pid_filter (ChassisControllerPID.distancePid c)
              = ChassisControllerBuilder.distanceFilter b
            /\ pid_filter (ChassisControllerPID.turnPid c)
                 = ChassisControllerBuilder.angleFilter b
            /\ pid_filter (ChassisControllerPID.anglePid c)
                 = ChassisControllerBuilder.turnFilter b))
  /\ (ChassisControllerBuilder.hasMotors b = true ->
      ~ AbstractMotor.ratio (ChassisControllerBuilder.gearset b) == 0 ->
      exists b' c, build configured = (b', ChassisControllerBuilder.builtPID c)).
Proof.
  intros configured.
  split; [repeat split|].
  assert (Hbuild :
    forall b' r, build configured = (b', r) ->
      ChassisControllerBuilder.hasMotors b = true ->
      ChassisControllerBuilder.buildCCPID xDriveOps defaults configured = (b', r)).
  { intros b' r Hb Hm. unfold ChassisControllerBuilder.build in Hb.
    change (ChassisControllerBuilder.hasMotors configured)
      with (ChassisControllerBuilder.hasMotors b) in Hb.
    rewrite Hm in Hb. exact Hb. }
  split.
  - intros b' c Hb.
    destruct (ChassisControllerBuilder.hasMotors b) eqn:Hm.
    + apply Hbuild in Hb; [|reflexivity].
      unfold ChassisControllerBuilder.buildCCPID,
        ChassisControllerPID.ChassisControllerPID in Hb.
      destruct (Qeq_bool _ 0) in Hb; inversion Hb; subst.
      split; repeat split.
    + unfold ChassisControllerBuilder.build in Hb.
      change (ChassisControllerBuilder.hasMotors configured)
        with (ChassisControllerBuilder.hasMotors b) in Hb.
      rewrite Hm in Hb. discriminate Hb.
  - intros Hm Hr.
    unfold ChassisControllerBuilder.build.
    change (ChassisControllerBuilder.hasMotors configured)
      with (ChassisControllerBuilder.hasMotors b).
    rewrite Hm. cbn [negb ChassisControllerBuilder.hasGains configured
                       ChassisControllerBuilder.withGains].
    unfold ChassisControllerBuilder.buildCCPID,
      ChassisControllerPID.ChassisControllerPID.
    change (ChassisControllerBuilder.gearset configured)
      with (ChassisControllerBuilder.gearset b).
    destruct (Qeq_bool (AbstractMotor.ratio (ChassisControllerBuilder.gearset b)) 0) eqn:E.
    + apply Qeq_bool_iff in E. contradiction.
    + eexists. eexists. reflexivity.
Qed.

End BuilderGains.

(** C10 on a fresh builder given two motors: gains 1 for distance, 2 for
    angle, 3 for turn. *)
Lemma withGains_and_buildCCPID_swaps_cancel_witness :
  exists b' c,
    ChassisControllerBuilder.build Scenario.inertXDrive Scenario.defaults
      (ChassisControllerBuilder.withGains
         (ChassisControllerBuilder.withMotors (fun _ => 0) Scenario.freshBuilder [] [])
         (Scenario.gainsOf 1) (Scenario.gainsOf 2) (Scenario.gainsOf 3))
    = (b', ChassisControllerBuilder.builtPID c)
    /\ IterativePosPIDController.gains (ChassisControllerPID.turnPid c) = Scenario.gainsOf 3
    /\ IterativePosPIDController.gains (ChassisControllerPID.anglePid c) = Scenario.gainsOf 2
    /\ IterativePosPIDController.derivativeFilter (ChassisControllerPID.turnPid c)
       = Some 30%nat.
Proof.
  destruct (withGains_and_buildCCPID_swaps_cancel Scenario.inertXDrive Scenario.defaults
              (ChassisControllerBuilder.withMotors (fun _ => 0) Scenario.freshBuilder [] [])
              (Scenario.gainsOf 1) (Scenario.gainsOf 2) (Scenario.gainsOf 3))
    as (_ & Hwired & Hbuilds).
  destruct Hbuilds as (b' & c & Eb); [reflexivity | discriminate |].
  exists b', c. split; [exact Eb|].
  destruct (Hwired b' c Eb) as ((_ & Ht & Ha) & (_ & Hf & _)).
  split; [exact Ht|]. split; [exact Ha|]. exact Hf.
Defined.

(** *** Waiting for a movement to settle *)

Section Waiting.

Import ChassisControllerPID.

Context {M : Type} {chassisModel : ChassisModel M}
        {pidBehaviour : IterativePosPIDController.Behaviour}.

Local Abbreviation pid_settled := IterativePosPIDController.isSettled.
Local Abbreviation pid_disabled := IterativePosPIDController.isDisabled.
Local Abbreviation pid_calls := IterativePosPIDController.calls.

Lemma waitForDistanceSettled_eq (world : list (World M)) (c : t M) :
  waitForDistanceSettled world c =
  if pid_settled (distancePid c) && pid_settled (anglePid c)
  then Some (true, world, c)
  else if modeType_eqb (mode c) angle then Some (false, world, c)
  else match world with
       | [] => None
       | w :: world' => waitForDistanceSettled world' (interfere w c)
       end.
Proof. destruct world; reflexivity. Qed.

Lemma waitForAngleSettled_eq (world : list (World M)) (c : t M) :
  waitForAngleSettled world c =
  if pid_settled (turnPid c)
  then Some (true, world, c)
  else if modeType_eqb (mode c) distance then Some (false, world, c)
  else match world with
       | [] => None
       | w :: world' => waitForAngleSettled world' (interfere w c)
       end.
Proof. destruct world; reflexivity. Qed.

(** What a settle-wait returns, and where: it says "settled" at a poll that
    finds its PIDs settled, and "try again" at a poll that finds them
    unsettled and the mode to be the other one. *)
Lemma waitForDistanceSettled_returns (world : list (World M)) (c : t M) b world' c' :
  waitForDistanceSettled world c = Some (b, world', c') ->
  (length world' <= length world)%nat
  /\ In c' (polls world c)
  /\ (b = true -> pid_settled (distancePid c') && pid_settled (anglePid c') = true)
  /\ (b = false ->
      pid_settled (distancePid c') && pid_settled (anglePid c') = false
      /\ mode c' = angle).
Proof.
  revert c. induction world as [|w world IH]; intros c;
    rewrite waitForDistanceSettled_eq;
    destruct (pid_settled (distancePid c) && pid_settled (anglePid c)) eqn:Es;
    try (intros E; inversion E; subst; cbn; repeat split;
         auto; discriminate).
  - destruct (modeType_eqb (mode c) angle) eqn:Em; [|discriminate].
    intros E; inversion E; subst. apply modeType_eqb_eq in Em.
    cbn; repeat split; auto; discriminate.
  - destruct (modeType_eqb (mode c) angle) eqn:Em.
    + intros E; inversion E; subst. apply modeType_eqb_eq in Em.
      cbn; repeat split; auto; discriminate.
    + intros E. apply IH in E. destruct E as (Hl & Hin & Ht & Hf).
      split; [cbn; lia|]. split; [right; exact Hin|]. split; assumption.
Qed.

Lemma waitForAngleSettled_returns (world : list (World M)) (c : t M) b world' c' :
  waitForAngleSettled world c = Some (b, world', c') ->
  (length world' <= length world)%nat
  /\ In c' (polls world c)
  /\ (b = true -> pid_settled (turnPid c') = true)
  /\ (b = false -> pid_settled (turnPid c') = false /\ mode c' = distance).
Proof.
  revert c. induction world as [|w world IH]; intros c;
    rewrite waitForAngleSettled_eq;
    destruct (pid_settled (turnPid c)) eqn:Es;
    try (intros E; inversion E; subst; cbn; repeat split;
         auto; discriminate).
  - destruct (modeType_eqb (mode c) distance) eqn:Em; [|discriminate].
    intros E; inversion E; subst. apply modeType_eqb_eq in Em.
    cbn; repeat split; auto; discriminate.
  - destruct (modeType_eqb (mode c) distance) eqn:Em.
    + intros E; inversion E; subst. apply modeType_eqb_eq in Em.
      cbn; repeat split; auto; discriminate.
    + intros E. apply IH in E. destruct E as (Hl & Hin & Ht & Hf).
      split; [cbn; lia|]. split; [right; exact Hin|]. split; assumption.
Qed.

(** A settle-wait entered in its own mode sleeps before it asks for another
    pass. *)
Lemma waitForDistanceSettled_again_slept (world : list (World M)) (c : t M) world' c' :
  mode c = distance ->
  waitForDistanceSettled world c = Some (false, world', c') ->
  (length world' < length world)%nat.
Proof.
  intros Hm. rewrite waitForDistanceSettled_eq, Hm. cbn [modeType_eqb].
  destruct (pid_settled (distancePid c) && pid_settled (anglePid c)); [discriminate|].
  destruct world as [|w world]; [discriminate|].
  intros E. apply waitForDistanceSettled_returns in E. cbn. lia.
Qed.

Lemma waitForAngleSettled_again_slept (world : list (World M)) (c : t M) world' c' :
  mode c = angle ->
  waitForAngleSettled world c = Some (false, world', c') ->
  (length world' < length world)%nat.
Proof.
  intros Hm. rewrite waitForAngleSettled_eq, Hm. cbn [modeType_eqb].
  destruct (pid_settled (turnPid c)); [discriminate|].
  destruct world as [|w world]; [discriminate|].
  intros E. apply waitForAngleSettled_returns in E. cbn. lia.
Qed.

(** Passes beyond one more than the delays left are never used. *)
Lemma waitUntilSettled_while_passes (n m : nat) (world : list (World M)) (c : t M) :
  (length world < n)%nat -> (length world < m)%nat ->
  waitUntilSettled_while n world c = waitUntilSettled_while m world c.
Proof.
  revert m world c. induction n as [|n IH]; intros m world c Hn Hm; [lia|].
  destruct m as [|m]; [lia|]. cbn [waitUntilSettled_while].
  destruct (mode c) eqn:Emode; [| |reflexivity].
  - destruct (waitForDistanceSettled world c) as [[[[] world'] c']|] eqn:E;
      try reflexivity.
    apply waitForDistanceSettled_again_slept in E; [|exact Emode].
    apply IH; lia.
  - destruct (waitForAngleSettled world c) as [[[[] world'] c']|] eqn:E;
      try reflexivity.
    apply waitForAngleSettled_again_slept in E; [|exact Emode].
    apply IH; lia.
Qed.

Lemma polls_self (world : list (World M)) (c : t M) : In c (polls world c).
Proof. destruct world; left; reflexivity. Qed.

Lemma polls_later (w : World M) (world : list (World M)) (c c' : t M) :
  In c' (polls world (interfere w c)) -> In c' (polls (w :: world) c).
Proof. intros Hin. right. exact Hin. Qed.

(** The polls of what is left of the world, from a poll on, are polls. *)
Lemma waitForDistanceSettled_polls (world : list (World M)) (c : t M) b world' c' :
  waitForDistanceSettled world c = Some (b, world', c') ->
  forall x, In x (polls world' c') -> In x (polls world c).
Proof.
  revert c. induction world as [|w world IH]; intros c;
    rewrite waitForDistanceSettled_eq;
    destruct (pid_settled (distancePid c) && pid_settled (anglePid c));
    [intros E; inversion E; subst; auto | | intros E; inversion E; subst; auto | ];
    destruct (modeType_eqb (mode c) angle);
    [intros E; inversion E; subst; auto | discriminate
     | intros E; inversion E; subst; auto | ].
  intros E x Hx. right. eapply IH; eassumption.
Qed.

Lemma waitForAngleSettled_polls (world : list (World M)) (c : t M) b world' c' :
  waitForAngleSettled world c = Some (b, world', c') ->
  forall x, In x (polls world' c') -> In x (polls world c).
Proof.
  revert c. induction world as [|w world IH]; intros c;
    rewrite waitForAngleSettled_eq;
    destruct (pid_settled (turnPid c));
    [intros E; inversion E; subst; auto | | intros E; inversion E; subst; auto | ];
    destruct (modeType_eqb (mode c) distance);
    [intros E; inversion E; subst; auto | discriminate
     | intros E; inversion E; subst; auto | ].
  intros E x Hx. right. eapply IH; eassumption.
Qed.

(** How the [while] of [waitUntilSettled] is left: at a poll, in the idle
    mode, or on a settle-wait that found its PIDs settled. *)
Lemma waitUntilSettled_while_returns (n : nat) (world : list (World M)) (c : t M)
  world' c1 :
  waitUntilSettled_while n world c = Some (world', c1) ->
  In c1 (polls world c)
  /\ (mode c1 = none
      \/ pid_settled (distancePid c1) && pid_settled (anglePid c1) = true
      \/ pid_settled (turnPid c1) = true).
Proof.
  revert world c. induction n as [|n IH]; intros world c; [discriminate|].
  cbn [waitUntilSettled_while].
  destruct (mode c) eqn:Emode.
  - destruct (waitForDistanceSettled world c) as [[[[] w2] c2]|] eqn:E;
      [| |discriminate].
    + intros R; inversion R; subst.
      apply waitForDistanceSettled_returns in E. destruct E as (_ & Hin & Ht & _).
      split; [exact Hin|]. right; left. apply Ht. reflexivity.
    + intros R. apply IH in R. destruct R as [Hin Hc].
      split; [|exact Hc].
      eapply waitForDistanceSettled_polls; eassumption.
  - destruct (waitForAngleSettled world c) as [[[[] w2] c2]|] eqn:E;
      [| |discriminate].
    + intros R; inversion R; subst.
      apply waitForAngleSettled_returns in E. destruct E as (_ & Hin & Ht & _).
      split; [exact Hin|]. right; right. apply Ht. reflexivity.
    + intros R. apply IH in R. destruct R as [Hin Hc].
      split; [|exact Hc].
      eapply waitForAngleSettled_polls; eassumption.
  - intros R; inversion R; subst. split; [apply polls_self | left; exact Emode].
Qed.

(** The [while] of [waitUntilSettled] hands back no more of the world than
    it was given. *)
Lemma waitUntilSettled_while_consumes (n : nat) (world : list (World M)) (c : t M)
  world' c' :
  waitUntilSettled_while n world c = Some (world', c') ->
  (length world' <= length world)%nat.
Proof.
  revert world c. induction n as [|n IH]; intros world c; [discriminate|].
  cbn [waitUntilSettled_while].
  destruct (mode c).
  - destruct (waitForDistanceSettled world c) as [[[[] w2] c2]|] eqn:E;
      [| |discriminate].
    + intros R; inversion R; subst.
      apply waitForDistanceSettled_returns in E. lia.
    + intros R. apply IH in R.
      apply waitForDistanceSettled_returns in E. lia.
  - destruct (waitForAngleSettled world c) as [[[[] w2] c2]|] eqn:E;
      [| |discriminate].
    + intros R; inversion R; subst.
      apply waitForAngleSettled_returns in E. lia.
    + intros R. apply IH in R.
      apply waitForAngleSettled_returns in E. lia.
  - intros R; inversion R; subst. lia.
Qed.

Lemma movementSettled_cases (c : t M) :
  movementSettled c = true ->
  (mode c = distance /\ pid_settled (distancePid c) && pid_settled (anglePid c) = true)
  \/ (mode c = angle /\ pid_settled (turnPid c) = true).
Proof.
  unfold movementSettled. destruct (mode c); intros E;
    [left | right | discriminate]; split; auto.
Qed.

(** A settle-wait returns if a poll ahead finds a movement settled; when it
    asks for another pass such a poll is still ahead. *)
Lemma waitForDistanceSettled_progress (world : list (World M)) (c : t M) :
  (exists x, In x (polls world c) /\ movementSettled x = true) ->
  exists b world' c',
    waitForDistanceSettled world c = Some (b, world', c')
    /\ (b = false -> exists x, In x (polls world' c') /\ movementSettled x = true).
Proof.
  revert c. induction world as [|w world IH]; intros c (x & Hin & Hx);
    rewrite waitForDistanceSettled_eq;
    destruct (pid_settled (distancePid c) && pid_settled (anglePid c)) eqn:Es;
    try (do 3 eexists; split; [reflexivity | discriminate]);
    destruct (modeType_eqb (mode c) angle) eqn:Em;
    try (do 3 eexists; split; [reflexivity | intros _; exists x; auto]).
  - destruct Hin as [<- | []].
    apply movementSettled_cases in Hx.
    destruct Hx as [[_ Hx] | [Hx _]]; [congruence|].
    rewrite Hx in Em. discriminate.
  - destruct Hin as [<- | Hin].
    + apply movementSettled_cases in Hx.
      destruct Hx as [[_ Hx] | [Hx _]]; [congruence|].
      rewrite Hx in Em. discriminate.
    + apply IH. exists x. auto.
Qed.

Lemma waitForAngleSettled_progress (world : list (World M)) (c : t M) :
  (exists x, In x (polls world c) /\ movementSettled x = true) ->
  exists b world' c',
    waitForAngleSettled world c = Some (b, world', c')
    /\ (b = false -> exists x, In x (polls world' c') /\ movementSettled x = true).
Proof.
  revert c. induction world as [|w world IH]; intros c (x & Hin & Hx);
    rewrite waitForAngleSettled_eq;
    destruct (pid_settled (turnPid c)) eqn:Es;
    try (do 3 eexists; split; [reflexivity | discriminate]);
    destruct (modeType_eqb (mode c) distance) eqn:Em;
    try (do 3 eexists; split; [reflexivity | intros _; exists x; auto]).
  - destruct Hin as [<- | []].
    apply movementSettled_cases in Hx.
    destruct Hx as [[Hx _] | [_ Hx]]; [|congruence].
    rewrite Hx in Em. discriminate.
  - destruct Hin as [<- | Hin].
    + apply movementSettled_cases in Hx.
      destruct Hx as [[Hx _] | [_ Hx]]; [|congruence].
      rewrite Hx in Em. discriminate.
    + apply IH. exists x. auto.
Qed.

Lemma waitUntilSettled_while_progress (n : nat) (world : list (World M)) (c : t M) :
  (length world < n)%nat ->
  mode c = none \/ (exists x, In x (polls world c) /\ movementSettled x = true) ->
  exists r, waitUntilSettled_while n world c = Some r.
Proof.
  revert world c. induction n as [|n IH]; intros world c Hn Hs; [lia|].
  cbn [waitUntilSettled_while].
  destruct (mode c) eqn:Emode.
  - destruct Hs as [Hs | Hs]; [discriminate|].
    destruct (waitForDistanceSettled_progress world c Hs) as (b & w2 & c2 & E & Hmore).
    rewrite E. destruct b; [eexists; reflexivity|].
    apply IH.
    + apply waitForDistanceSettled_again_slept in E; [lia | exact Emode].
    + right. apply Hmore. reflexivity.
  - destruct Hs as [Hs | Hs]; [discriminate|].
    destruct (waitForAngleSettled_progress world c Hs) as (b & w2 & c2 & E & Hmore).
    rewrite E. destruct b; [eexists; reflexivity|].
    apply IH.
    + apply waitForAngleSettled_again_slept in E; [lia | exact Emode].
    + right. apply Hmore. reflexivity.
  - eexists; reflexivity.
Qed.

Lemma afterSettling_state (c1 : t M) :
  let c' := afterSettling c1 in
  mode c' = none /\ doneLooping c' = true
  /\ (pid_disabled (distancePid c') = true /\ pid_disabled (anglePid c') = true
      /\ pid_disabled (turnPid c') = true)
  /\ (pid_calls (distancePid c') =
        IterativePosPIDController.flipDisable true :: pid_calls (distancePid c1)
      /\ pid_calls (anglePid c') =
           IterativePosPIDController.flipDisable true :: pid_calls (anglePid c1)
      /\ pid_calls (turnPid c') =
           IterativePosPIDController.flipDisable true :: pid_calls (turnPid c1))
  /\ model c' = stop (model c1).
Proof. cbn. repeat split. Qed.

(** C1.  Whenever [waitUntilSettled] returns, it was at a poll [c1] that
    found the idle mode, or the distance and the angle PID both settled, or
    the turn PID settled; and on returning all three PIDs were disabled,
    the model was sent [stop], the mode is [none] and [doneLooping] is
    true.  If the PIDs of the mode report settled when it is called, it
    returns at once, without a delay.  It returns if a poll ahead finds a
    movement under way with the PIDs of its mode settled (for [distance]
    the distance and the angle PID at the same poll, for [angle] the turn
    PID).  So [moveDistanceAsync(d)] followed by [waitUntilSettled()]
    returns when such a poll is ahead, and on returning the mode is [none]
    and the distance and angle PIDs are disabled. *)
Theorem waitUntilSettled_shuts_down_once_settled (world : list (World M)) (c : t M) :
  (forall world' c',
     waitUntilSettled world c = Some (world', c') ->
     exists c1,
       In c1 (polls world c)
       /\ (mode c1 = none
           \/ pid_settled (distancePid c1) && pid_settled (anglePid c1) = true
           \/ pid_settled (turnPid c1) = true)
       /\ c' = afterSettling c1
       /\ mode c' = none /\ doneLooping c' = true
       /\ (pid_disabled (distancePid c') = true /\ pid_disabled (anglePid c') = true
           /\ pid_disabled (turnPid c') = true)
       /\ model c' = stop (model c1))
  /\ (settledForMode c = true ->
      waitUntilSettled world c = Some (world, afterSettling c))
  /\ ((exists x, In x (polls world c) /\ movementSettled x = true) ->
      exists r, waitUntilSettled world c = Some r)
  /\ (forall d : QLength,
        ((exists x, In x (polls world (moveDistanceAsync c d))
                    /\ movementSettled x = true) ->
         exists r, moveDistance world c d = Some r)
        /\ (forall world' c',
              moveDistance world c d = Some (world', c') ->
              mode c' = none
              /\ pid_disabled (distancePid c') = true
              /\ pid_disabled (anglePid c') = true)).
Proof.
  assert (Hpost : forall (wd : list (World M)) (c0 : t M) world' c',
    waitUntilSettled wd c0 = Some (world', c') ->
    exists c1,
      In c1 (polls wd c0)
      /\ (mode c1 = none
          \/ pid_settled (distancePid c1) && pid_settled (anglePid c1) = true
          \/ pid_settled (turnPid c1) = true)
      /\ c' = afterSettling c1
      /\ mode c' = none /\ doneLooping c' = true
      /\ (pid_disabled (distancePid c') = true /\ pid_disabled (anglePid c') = true
          /\ pid_disabled (turnPid c') = true)
      /\ model c' = stop (model c1)).
  { intros wd c0 world' c'. unfold waitUntilSettled.
    destruct (waitUntilSettled_while (S (length wd)) wd c0) as [[w1 c1]|] eqn:E;
      [|discriminate].
    intros R; inversion R; subst.
    apply waitUntilSettled_while_returns in E. destruct E as [Hin Hc].
    exists c1. split; [exact Hin|]. split; [exact Hc|].
    split; [reflexivity|]. cbn. repeat split. }
  assert (Hprog : forall (wd : list (World M)) (c0 : t M),
    mode c0 = none \/ (exists x, In x (polls wd c0) /\ movementSettled x = true) ->
    exists r, waitUntilSettled wd c0 = Some r).
  { intros wd c0 Hs. unfold waitUntilSettled.
    destruct (waitUntilSettled_while_progress (S (length wd)) wd c0) as [[w1 c1] E];
      [lia | exact Hs |].
    rewrite E. eexists; reflexivity. }
  split; [apply Hpost|].
  split.
  { unfold settledForMode, waitUntilSettled. cbn [waitUntilSettled_while].
    destruct (mode c) eqn:Emode; intros Hs.
    - rewrite waitForDistanceSettled_eq, Hs. reflexivity.
    - rewrite waitForAngleSettled_eq, Hs. reflexivity.
    - reflexivity. }
  split; [intros Hs; apply Hprog; right; exact Hs|].
  intros d. split.
  - intros Hs. apply Hprog. right. exact Hs.
  - intros world' c' E. apply Hpost in E.
    destruct E as (c1 & _ & _ & _ & Hm & _ & (Hd & Ha & _) & _).
    repeat split; assumption.
Qed.

(** The path on which a settle-wait does see a change of mode.  A
    settle-wait for [distance] that slept with its PIDs unsettled, and at
    the next poll finds the mode to be [angle] and its own PIDs still not
    both settled, returns "try again" at that poll, and [waitUntilSettled]
    goes on as if called there: it resolves on the turn PID, returning at
    that very poll if the turn PID is settled and not before a further delay
    if it is not.  Likewise with [angle] and [distance] exchanged. *)
Lemma mode_change_seen_while_unsettled
  (w : World M) (world : list (World M)) (c : t M) :
  let c2 := interfere w c in
  (mode c = distance ->
   pid_settled (distancePid c) && pid_settled (anglePid c) = false ->
   mode c2 = angle ->
   pid_settled (distancePid c2) && pid_settled (anglePid c2) = false ->
   waitForDistanceSettled (w :: world) c = Some (false, world, c2)
   /\ waitUntilSettled (w :: world) c = waitUntilSettled world c2
   /\ (pid_settled (turnPid c2) = true ->
       waitUntilSettled (w :: world) c = Some (world, afterSettling c2))
   /\ (pid_settled (turnPid c2) = false ->
       forall world' c',
         waitUntilSettled (w :: world) c = Some (world', c') ->
         (length world' < length world)%nat))
  /\ (mode c = angle ->
      pid_settled (turnPid c) = false ->
      mode c2 = distance ->
      pid_settled (turnPid c2) = false ->
      waitForAngleSettled (w :: world) c = Some (false, world, c2)
      /\ waitUntilSettled (w :: world) c = waitUntilSettled world c2
      /\ (pid_settled (distancePid c2) && pid_settled (anglePid c2) = true ->
          waitUntilSettled (w :: world) c = Some (world, afterSettling c2))
      /\ (pid_settled (distancePid c2) && pid_settled (anglePid c2) = false ->
          forall world' c',
            waitUntilSettled (w :: world) c = Some (world', c') ->
            (length world' < length world)%nat)).
Proof.
  intros c2. split.
  - intros Hm Hs Hm2 Hs2.
    assert (Eabort : waitForDistanceSettled (w :: world) c = Some (false, world, c2)).
    { rewrite waitForDistanceSettled_eq, Hs, Hm. cbn [modeType_eqb].
      fold c2. rewrite waitForDistanceSettled_eq, Hs2, Hm2. reflexivity. }
    assert (Eagain : waitUntilSettled (w :: world) c = waitUntilSettled world c2).
    { unfold waitUntilSettled.
      change (length (w :: world)) with (S (length world)).
      cbn [waitUntilSettled_while]. rewrite Hm, Eabort. reflexivity. }
    split; [exact Eabort|]. split; [exact Eagain|]. split.
    + intros Ht. rewrite Eagain. unfold waitUntilSettled.
      cbn [waitUntilSettled_while]. rewrite Hm2.
      rewrite waitForAngleSettled_eq, Ht. reflexivity.
    + intros Ht world' c'. rewrite Eagain. unfold waitUntilSettled.
      cbn [waitUntilSettled_while]. rewrite Hm2.
      rewrite waitForAngleSettled_eq, Ht, Hm2. cbn [modeType_eqb].
      destruct world as [|w3 world3]; [discriminate|].
      destruct (waitForAngleSettled world3 (interfere w3 c2))
        as [[[[] w4] c4]|] eqn:E; [| |discriminate].
      * intros R; inversion R; subst.
        apply waitForAngleSettled_returns in E. cbn. lia.
      * apply waitForAngleSettled_returns in E. destruct E as (Hl & _).
        destruct (waitUntilSettled_while (length (w3 :: world3)) w4 c4)
          as [[w5 c5]|] eqn:E5; [|discriminate].
        intros R; inversion R; subst.
        apply waitUntilSettled_while_consumes in E5.
        cbn. lia.
  - intros Hm Hs Hm2 Hs2.
    assert (Eabort : waitForAngleSettled (w :: world) c = Some (false, world, c2)).
    { rewrite waitForAngleSettled_eq, Hs, Hm. cbn [modeType_eqb].
      fold c2. rewrite waitForAngleSettled_eq, Hs2, Hm2. reflexivity. }
    assert (Eagain : waitUntilSettled (w :: world) c = waitUntilSettled world c2).
    { unfold waitUntilSettled.
      change (length (w :: world)) with (S (length world)).
      cbn [waitUntilSettled_while]. rewrite Hm, Eabort. reflexivity. }
    split; [exact Eabort|]. split; [exact Eagain|]. split.
    + intros Ht. rewrite Eagain. unfold waitUntilSettled.
      cbn [waitUntilSettled_while]. rewrite Hm2.
      rewrite waitForDistanceSettled_eq, Ht. reflexivity.
    + intros Ht world' c'. rewrite Eagain. unfold waitUntilSettled.
      cbn [waitUntilSettled_while]. rewrite Hm2.
      rewrite waitForDistanceSettled_eq, Ht, Hm2. cbn [modeType_eqb].
      destruct world as [|w3 world3]; [discriminate|].
      destruct (waitForDistanceSettled world3 (interfere w3 c2))
        as [[[[] w4] c4]|] eqn:E; [| |discriminate].
      * intros R; inversion R; subst.
        apply waitForDistanceSettled_returns in E. cbn. lia.
      * apply waitForDistanceSettled_returns in E. destruct E as (Hl & _).
        destruct (waitUntilSettled_while (length (w3 :: world3)) w4 c4)
          as [[w5 c5]|] eqn:E5; [|discriminate].
        intros R; inversion R; subst.
        apply waitUntilSettled_while_consumes in E5.
        cbn. lia.
Qed.

End Waiting.

(** C1 on the example controller: [moveDistance(6 m)], the loop thread
    passing once at the start and once with both wheels at 12, where the
    distance PID (target 12) and the angle PID (target 0) are on target. *)
Lemma waitUntilSettled_shuts_down_once_settled_witness :
  exists world' c',
    ChassisControllerPID.moveDistance (pidBehaviour := Scenario.strict)
      [Scenario.loopPasses Scenario.strict Scenario.localsAtStart 0 0;
       Scenario.loopPasses Scenario.strict Scenario.localsMoving 12 12]
      Scenario.controller {| convert_meter := 6 |}
    = Some (world', c')
    /\ ChassisControllerPID.mode c' = ChassisControllerPID.none
    /\ IterativePosPIDController.isDisabled (ChassisControllerPID.distancePid c') = true
    /\ IterativePosPIDController.isDisabled (ChassisControllerPID.anglePid c') = true.
Proof.
  destruct (waitUntilSettled_shuts_down_once_settled (pidBehaviour := Scenario.strict)
              [Scenario.loopPasses Scenario.strict Scenario.localsAtStart 0 0;
               Scenario.loopPasses Scenario.strict Scenario.localsMoving 12 12]
              Scenario.controller) as (_ & _ & _ & Hmove).
  destruct (Hmove {| convert_meter := 6 |}) as [Hreturns Hpost].
  destruct Hreturns as [[world' c'] E].
  - eexists. split; [right; right; left; reflexivity | vm_compute; reflexivity].
  - exists world', c'. split; [exact E|]. exact (Hpost world' c' E).
Defined.

(** C2.  The code at the failing input.  The example controller waits after
    [moveDistanceAsync(6 m)], its distance and angle PIDs unsettled; during
    the first delay another thread calls [turnAngleAsync(90 deg)].  With a
    PID primitive that reports settled when disabled, the next poll finds the
    distance and angle PIDs, which [turnAngleAsync] disabled, settled: the
    guard of the loop of [waitForDistanceSettled] is left before the mode is
    looked at, the function returns "settled", and [waitUntilSettled]
    returns with the mode [angle] in force and the turn PID unsettled; its
    last statements disable the turn PID and set the mode to [none], so the
    turn is never made nor waited for.  With a primitive that reports
    settled only on target the same happens when the loop thread brings
    both PIDs on target in the delay in which the other thread calls
    [turnAngleAsync]. *)
Lemma wait_resolves_on_old_mode_when_it_reports_settled :
  let c0 := ChassisControllerPID.moveDistanceAsync Scenario.controller
              {| convert_meter := 6 |} in
  (let pid := Scenario.proportional in
   let c2 := ChassisControllerPID.interfere (Scenario.clientTurns 90) c0 in
   ChassisControllerPID.settledForMode (pidBehaviour := pid) c0 = false
   /\ ChassisControllerPID.mode c2 = ChassisControllerPID.angle
   /\ IterativePosPIDController.isSettled (Behaviour := pid)
        (ChassisControllerPID.turnPid c2) = false
   /\ ChassisControllerPID.waitForDistanceSettled (pidBehaviour := pid)
        [Scenario.clientTurns 90] c0 = Some (true, [], c2)
   /\ ChassisControllerPID.waitUntilSettled (pidBehaviour := pid)
        [Scenario.clientTurns 90] c0
      = Some ([], ChassisControllerPID.afterSettling c2)
   /\ IterativePosPIDController.isDisabled
        (ChassisControllerPID.turnPid (ChassisControllerPID.afterSettling c2)) = true
   /\ ChassisControllerPID.mode (ChassisControllerPID.afterSettling c2)
      = ChassisControllerPID.none)
  /\ (let pid := Scenario.strict in
      let world :=
        [Scenario.loopPasses pid Scenario.localsAtStart 0 0;
         Scenario.both (Scenario.loopPasses pid Scenario.localsMoving 12 12)
                       (Scenario.clientTurns 90)] in
      exists c2,
        In c2 (ChassisControllerPID.polls world c0)
        /\ ChassisControllerPID.settledForMode (pidBehaviour := pid) c0 = false
        /\ ChassisControllerPID.mode c2 = ChassisControllerPID.angle
        /\ IterativePosPIDController.isSettled (Behaviour := pid)
             (ChassisControllerPID.turnPid c2) = false
        /\ ChassisControllerPID.waitUntilSettled (pidBehaviour := pid) world c0
           = Some ([], ChassisControllerPID.afterSettling c2)
        /\ IterativePosPIDController.isDisabled
             (ChassisControllerPID.turnPid (ChassisControllerPID.afterSettling c2)) = true
        /\ ChassisControllerPID.mode (ChassisControllerPID.afterSettling c2)
           = ChassisControllerPID.none).
Proof.
  intros c0. split.
  - cbv zeta. repeat (apply conj); vm_compute; reflexivity.
  - cbv zeta. eexists. split; [right; right; left; reflexivity|].
    repeat (apply conj); vm_compute; reflexivity.
Qed.

(** With any PID primitive that reports settled when disabled the miss is
    the rule: whenever a wait in one mode sleeps and the other thread
    starts a movement of the other mode in that delay, the next poll finds
    the PIDs waited for disabled, hence settled, and [waitUntilSettled]
    returns there, disabling the PIDs of the new movement. *)
Lemma new_movement_is_cancelled_when_disabled_means_settled
  {M : Type} {chassisModel : ChassisModel M}
  {pidBehaviour : IterativePosPIDController.Behaviour}
  (w : ChassisControllerPID.World M) (world : list (ChassisControllerPID.World M))
  (c : ChassisControllerPID.t M) :
  (forall p, IterativePosPIDController.isDisabled p = true ->
             IterativePosPIDController.isSettled p = true) ->
  (forall a,
     ChassisControllerPID.mode c = ChassisControllerPID.distance ->
     IterativePosPIDController.isSettled (ChassisControllerPID.distancePid c)
     && IterativePosPIDController.isSettled (ChassisControllerPID.anglePid c) = false ->
     ChassisControllerPID.interfere w c = ChassisControllerPID.turnAngleAsync c a ->
     ChassisControllerPID.waitUntilSettled (w :: world) c
     = Some (world, ChassisControllerPID.afterSettling
                      (ChassisControllerPID.turnAngleAsync c a)))
  /\ (forall d,
        ChassisControllerPID.mode c = ChassisControllerPID.angle ->
        IterativePosPIDController.isSettled (ChassisControllerPID.turnPid c) = false ->
        ChassisControllerPID.interfere w c = ChassisControllerPID.moveDistanceAsync c d ->
        ChassisControllerPID.waitUntilSettled (w :: world) c
        = Some (world, ChassisControllerPID.afterSettling
                         (ChassisControllerPID.moveDistanceAsync c d))).
Proof.
  intros Hds. split.
  - intros a Hm Hs Hw. unfold ChassisControllerPID.waitUntilSettled.
    cbn [ChassisControllerPID.waitUntilSettled_while length]. rewrite Hm.
    rewrite waitForDistanceSettled_eq, Hs, Hm. cbn [ChassisControllerPID.modeType_eqb].
    rewrite Hw, waitForDistanceSettled_eq.
    rewrite (Hds (ChassisControllerPID.distancePid (ChassisControllerPID.turnAngleAsync c a)))
      by reflexivity.
    rewrite (Hds (ChassisControllerPID.anglePid (ChassisControllerPID.turnAngleAsync c a)))
      by reflexivity.
    reflexivity.
  - intros d Hm Hs Hw. unfold ChassisControllerPID.waitUntilSettled.
    cbn [ChassisControllerPID.waitUntilSettled_while length]. rewrite Hm.
    rewrite waitForAngleSettled_eq, Hs, Hm. cbn [ChassisControllerPID.modeType_eqb].
    rewrite Hw, waitForAngleSettled_eq.
    rewrite (Hds (ChassisControllerPID.turnPid (ChassisControllerPID.moveDistanceAsync c d)))
      by reflexivity.
    reflexivity.
Qed.

(** On the example controller with the primitive that reports settled only
    on target: the wait in [distance] sees the mode changed by
    [turnAngleAsync(90 deg)], asks for another pass, and waits on the turn
    PID. *)
Lemma mode_change_seen_while_unsettled_witness :
  ChassisControllerPID.waitForDistanceSettled (pidBehaviour := Scenario.strict)
    [Scenario.clientTurns 90]
    (ChassisControllerPID.moveDistanceAsync Scenario.controller {| convert_meter := 6 |})
  = Some (false, [],
          ChassisControllerPID.interfere (Scenario.clientTurns 90)
            (ChassisControllerPID.moveDistanceAsync Scenario.controller
               {| convert_meter := 6 |})).
Proof.
  apply (mode_change_seen_while_unsettled (pidBehaviour := Scenario.strict)
           (Scenario.clientTurns 90) []
           (ChassisControllerPID.moveDistanceAsync Scenario.controller
              {| convert_meter := 6 |})); vm_compute; reflexivity.
Defined.

(** With PIDs that never come on target in a world where nothing happens,
    [waitUntilSettled] polls for as long as the world lasts. *)
Lemma wait_polls_while_unsettled (n : nat) :
  ChassisControllerPID.waitUntilSettled (pidBehaviour := Scenario.strict)
    (repeat Scenario.quiet n)
    (ChassisControllerPID.moveDistanceAsync Scenario.controller {| convert_meter := 6 |})
  = None.
Proof.
  set (c0 := ChassisControllerPID.moveDistanceAsync Scenario.controller
               {| convert_meter := 6 |}).
  assert (Hinner : forall k,
            ChassisControllerPID.waitForDistanceSettled (pidBehaviour := Scenario.strict)
              (repeat Scenario.quiet k) c0 = None).
  { induction k as [|k IH]; [reflexivity|].
    cbn [repeat]. rewrite waitForDistanceSettled_eq.
    change (ChassisControllerPID.interfere Scenario.quiet c0) with c0.
    rewrite IH. reflexivity. }
  unfold ChassisControllerPID.waitUntilSettled.
  cbn [ChassisControllerPID.waitUntilSettled_while].
  change (ChassisControllerPID.mode c0) with ChassisControllerPID.distance.
  cbv iota. rewrite Hinner. reflexivity.
Qed.

(** ** Further properties of the model *)

Lemma to_int16_Qeq (x y : Q) : x == y -> Num.to_int16 x = Num.to_int16 y.
Proof. intros E. unfold Num.to_int16. rewrite (truncate_Qeq x y E). reflexivity. Qed.

Lemma truncate_opp (x : Q) : Num.truncate (- x) = (- Num.truncate x)%Z.
Proof.
  destruct x as [n d]. unfold Num.truncate. cbn [Qopp Qnum Qden].
  apply Z.quot_opp_l. discriminate.
Qed.

Lemma vectorOutputs_unnormalised (f y : Q) :
  Num.max (Qabs (Num.clamp f (-1) 1 + Num.clamp y (-1) 1))
          (Qabs (Num.clamp f (-1) 1 - Num.clamp y (-1) 1)) <= 1 ->
  SkidSteerModel.vectorOutputs f y =
  (Num.clamp f (-1) 1 + Num.clamp y (-1) 1, Num.clamp f (-1) 1 - Num.clamp y (-1) 1).
Proof.
  intros Hm. unfold SkidSteerModel.vectorOutputs.
  apply Qltb_ge in Hm. rewrite Hm. reflexivity.
Qed.

Lemma max_le (a b c : Q) : a <= c -> b <= c -> Num.max a b <= c.
Proof. intros Ha Hb. unfold Num.max. destruct (Num.Qltb a b); assumption. Qed.

(** X1.  [forward(speed)] is [driveVector(speed, 0)], and [rotate(speed)] is
    [driveVector(0, speed)]: the same calls reach the same motors. *)
Theorem forward_and_rotate_are_driveVector (m : SkidSteerModel.t) (ispeed : Q) :
  SkidSteerModel.driveVector m ispeed 0 = SkidSteerModel.forward m ispeed
  /\ SkidSteerModel.driveVector m 0 ispeed = SkidSteerModel.rotate m ispeed.
Proof.
  pose proof (clamp_unit_bounds ispeed) as [Hlo Hhi].
  set (s := Num.clamp ispeed (-1) 1) in *.
  assert (Hz : Num.clamp 0 (-1) 1 = 0) by reflexivity.
  split.
  - rewrite driveVector_sends, vectorOutputs_unnormalised; rewrite Hz; fold s.
    + unfold SkidSteerModel.forward. fold s. cbn [fst snd].
      f_equal; f_equal; apply to_int16_Qeq; ring.
    + apply max_le; apply Qabs_le_iff; split; lra.
  - rewrite driveVector_sends, vectorOutputs_unnormalised; rewrite Hz; fold s.
    + unfold SkidSteerModel.rotate. fold s. cbn [fst snd].
      f_equal; f_equal; apply to_int16_Qeq; ring.
    + apply max_le; apply Qabs_le_iff; split; lra.
Qed.

(** X2.  With a velocity limit an [int16_t] holds, [rotate] commands the two
    sides with exactly opposite velocities: the conversion rounds toward
    zero on both. *)
Theorem rotate_commands_are_opposite (m : SkidSteerModel.t) (ispeed : Q) :
  Qabs (SkidSteerModel.maxVelocity m) <= 32767 ->
  let v := Num.to_int16 (Num.clamp ispeed (-1) 1 * SkidSteerModel.maxVelocity m) in
  SkidSteerModel.rotate m ispeed =
  SkidSteerModel.send m (AbstractMotor.moveVelocity v) (AbstractMotor.moveVelocity (- v)).
Proof.
  intros Hl v. unfold SkidSteerModel.rotate. f_equal. f_equal.
  set (s := Num.clamp ispeed (-1) 1).
  rewrite (to_int16_Qeq (-1 * s * SkidSteerModel.maxVelocity m)
                        ((- s) * SkidSteerModel.maxVelocity m)) by ring.
  unfold v. fold s.
  rewrite !scaled_command_in_range; try assumption.
  - rewrite <- truncate_opp. apply truncate_Qeq. ring.
  - apply clamp_unit_abs.
  - rewrite Qabs_opp. apply clamp_unit_abs.
Qed.

Lemma rotate_commands_are_opposite_witness :
  SkidSteerModel.rotate Scenario.robot (1#3) =
  SkidSteerModel.send Scenario.robot
    (AbstractMotor.moveVelocity 200) (AbstractMotor.moveVelocity (-200)).
Proof.
  apply (rotate_commands_are_opposite Scenario.robot (1#3)). discriminate.
Defined.

(** *** The normalisation of [driveVector] *)

Lemma Qabs_div_pos (a mag : Q) : 0 < mag -> Qabs (a / mag) == Qabs a / mag.
Proof.
  intros Hm. unfold Qdiv. rewrite Qabs_Qmult.
  rewrite (Qabs_pos (/ mag)); [reflexivity|].
  apply Qlt_le_weak, Qinv_lt_0_compat. exact Hm.
Qed.

Lemma max_Qeq_one (a b : Q) :
  (a == 1 /\ b <= 1) \/ (b == 1 /\ a <= 1) -> Num.max a b == 1.
Proof.
  unfold Num.max. intros [[Ea Hb] | [Eb Ha]]; qltb_cases; lra.
Qed.

(** X3.  When [driveVector] normalises, that is when the larger of
    [|forward + yaw|] and [|forward - yaw|] (of the clamped inputs) exceeds
    1, the larger of the two outputs is exactly 1 in magnitude: one side is
    driven at the full limit, the other scaled down with it. *)
Theorem driveVector_normalised_saturates (iforwardSpeed iyaw : Q) :
  let f := Num.clamp iforwardSpeed (-1) 1 in
  let y := Num.clamp iyaw (-1) 1 in
  1 < Num.max (Qabs (f + y)) (Qabs (f - y)) ->
  Num.max (Qabs (fst (SkidSteerModel.vectorOutputs iforwardSpeed iyaw)))
          (Qabs (snd (SkidSteerModel.vectorOutputs iforwardSpeed iyaw))) == 1.
Proof.
  intros f y Hm. unfold SkidSteerModel.vectorOutputs. fold f y.
  set (mag := Num.max (Qabs (f + y)) (Qabs (f - y))) in *.
  pose proof Hm as Hb. apply Qltb_lt in Hb. rewrite Hb. cbn [fst snd].
  assert (Hpos : 0 < mag) by lra.
  pose proof (max_spec (Qabs (f + y)) (Qabs (f - y))) as [Hl Hr]. fold mag in Hl, Hr.
  apply max_Qeq_one.
  destruct (max_cases (Qabs (f + y)) (Qabs (f - y))) as [[E _] | [E _]];
    fold mag in E; [left | right]; split.
  - rewrite Qabs_div_pos by exact Hpos. rewrite <- E. field. lra.
  - apply Qabs_div_unit; assumption.
  - rewrite Qabs_div_pos by exact Hpos. rewrite <- E. field. lra.
  - apply Qabs_div_unit; assumption.
Qed.

Lemma driveVector_normalised_saturates_witness :
  Num.max (Qabs (fst (SkidSteerModel.vectorOutputs 1 (1#2))))
          (Qabs (snd (SkidSteerModel.vectorOutputs 1 (1#2)))) == 1.
Proof.
  apply (driveVector_normalised_saturates 1 (1#2)). reflexivity.
Defined.

(** *** The mixing of [arcade] *)

Lemma arcadeInput_unit (x t : Q) : -1 <= SkidSteerModel.arcadeInput x t <= 1.
Proof.
  unfold SkidSteerModel.arcadeInput.
  destruct (Qle_bool _ t); [split; discriminate | apply clamp_unit_bounds].
Qed.

Lemma Qle_bool_false (a b : Q) : Qle_bool a b = false -> b < a.
Proof.
  intros E. apply Qnot_le_lt. intros H. apply Qle_bool_iff in H. congruence.
Qed.

Lemma copysign_abs (x y : Q) : Qabs (Num.copysign x y) == Qabs x.
Proof.
  unfold Num.copysign. destruct (Num.Qltb y 0).
  - rewrite Qabs_opp. apply Qabs_pos, Qabs_nonneg.
  - apply Qabs_pos, Qabs_nonneg.
Qed.

Lemma arcade_maxInput_unit (a b : Q) :
  -1 <= a <= 1 -> -1 <= b <= 1 ->
  -1 <= Num.copysign (Num.max (Qabs a) (Qabs b)) a <= 1.
Proof.
  intros Ha Hb.
  assert (H : Qabs (Num.copysign (Num.max (Qabs a) (Qabs b)) a) <= 1).
  { rewrite copysign_abs. rewrite Qabs_pos.
    - apply max_le; apply Qabs_le_iff; split; lra.
    - eapply Qle_trans; [apply Qabs_nonneg | apply (max_spec (Qabs a) (Qabs b))]. }
  apply Qabs_le_iff in H. split; lra.
Qed.

(** The outputs [arcade] mixes are within [-1,1]; its clamp is idle. *)
Lemma arcade_without_clamp (m : SkidSteerModel.t) (iforwardSpeed iyaw ithreshold : Q) :
  let leftOutput := fst (SkidSteerModel.arcadeOutputs iforwardSpeed iyaw ithreshold) in
  let rightOutput := snd (SkidSteerModel.arcadeOutputs iforwardSpeed iyaw ithreshold) in
  (-1 <= leftOutput <= 1 /\ -1 <= rightOutput <= 1)
  /\ SkidSteerModel.arcade m iforwardSpeed iyaw ithreshold =
     SkidSteerModel.send m
       (AbstractMotor.moveVoltage (Num.to_int16 (leftOutput * SkidSteerModel.maxVoltage m)))
       (AbstractMotor.moveVoltage (Num.to_int16 (rightOutput * SkidSteerModel.maxVoltage m))).
Proof.
  intros leftOutput rightOutput.
  assert (Hb : -1 <= leftOutput <= 1 /\ -1 <= rightOutput <= 1).
  { unfold leftOutput, rightOutput, SkidSteerModel.arcadeOutputs.
    pose proof (arcadeInput_unit iforwardSpeed ithreshold) as Ha.
    pose proof (arcadeInput_unit iyaw ithreshold) as Hy.
    set (a := SkidSteerModel.arcadeInput iforwardSpeed ithreshold) in *.
    set (b := SkidSteerModel.arcadeInput iyaw ithreshold) in *.
    pose proof (arcade_maxInput_unit a b Ha Hy) as Hmax.
    destruct (Qle_bool 0 a) eqn:Ea; destruct (Qle_bool 0 b) eqn:Eb;
      cbn [fst snd];
      try (apply Qle_bool_iff in Ea); try (apply Qle_bool_iff in Eb);
      try (apply Qle_bool_false in Ea); try (apply Qle_bool_false in Eb);
      split; try exact Hmax; lra. }
  split; [exact Hb|].
  unfold SkidSteerModel.arcade. fold leftOutput rightOutput.
  destruct (SkidSteerModel.arcadeOutputs iforwardSpeed iyaw ithreshold) as [lo ro].
  cbn [fst snd] in *. subst leftOutput rightOutput.
  destruct Hb as [Hl Hr].
  rewrite (clamp_unit_id lo Hl), (clamp_unit_id ro Hr). reflexivity.
Qed.

(** X4.  The outputs [arcade] mixes from its two inputs are within [-1,1]
    whatever the inputs and the threshold, so the clamp [arcade] applies to
    them before scaling changes nothing. *)
Theorem arcade_outputs_need_no_clamp (m : SkidSteerModel.t) (iforwardSpeed iyaw ithreshold : Q) :
  let leftOutput := fst (SkidSteerModel.arcadeOutputs iforwardSpeed iyaw ithreshold) in
  let rightOutput := snd (SkidSteerModel.arcadeOutputs iforwardSpeed iyaw ithreshold) in
  (-1 <= leftOutput <= 1 /\ -1 <= rightOutput <= 1)
  /\ SkidSteerModel.arcade m iforwardSpeed iyaw ithreshold =
     SkidSteerModel.send m
       (AbstractMotor.moveVoltage (Num.to_int16 (leftOutput * SkidSteerModel.maxVoltage m)))
       (AbstractMotor.moveVoltage (Num.to_int16 (rightOutput * SkidSteerModel.maxVoltage m))).
Proof. exact (arcade_without_clamp m iforwardSpeed iyaw ithreshold). Qed.

Lemma arcadeInput_zero (t : Q) : SkidSteerModel.arcadeInput 0 t = 0.
Proof.
  unfold SkidSteerModel.arcadeInput.
  change (Num.clamp 0 (-1) 1) with 0. destruct (Qle_bool (Qabs 0) t); reflexivity.
Qed.

Lemma max_abs_zero_r (a : Q) : Num.max (Qabs a) (Qabs 0) == Qabs a.
Proof.
  unfold Num.max. pose proof (Qabs_nonneg a) as Ha.
  change (Qabs 0) with 0. qltb_cases; lra.
Qed.

Lemma max_abs_zero_l (b : Q) : Num.max (Qabs 0) (Qabs b) == Qabs b.
Proof.
  unfold Num.max. pose proof (Qabs_nonneg b) as Hb.
  change (Qabs 0) with 0. qltb_cases; lra.
Qed.

(** X5.  [arcade] with yaw 0 drives straight: both sides are sent the same
    voltage, that of the forward input after clamp and deadband.  [arcade]
    with forward speed 0 and a threshold that is not negative turns in
    place: the left side is sent the voltage of the yaw input after clamp
    and deadband, the right side that of its opposite.  (The deadband then
    replaces a forward speed of zero of either sign by the literal 0, whose
    sign [copysign] reads.) *)
Theorem arcade_straight_and_in_place (m : SkidSteerModel.t) (input ithreshold : Q) :
  let v := SkidSteerModel.arcadeInput input ithreshold in
  SkidSteerModel.arcade m input 0 ithreshold =
    SkidSteerModel.send m
      (AbstractMotor.moveVoltage (Num.to_int16 (v * SkidSteerModel.maxVoltage m)))
      (AbstractMotor.moveVoltage (Num.to_int16 (v * SkidSteerModel.maxVoltage m)))
  /\ (0 <= ithreshold ->
      SkidSteerModel.arcade m 0 input ithreshold =
        SkidSteerModel.send m
          (AbstractMotor.moveVoltage (Num.to_int16 (v * SkidSteerModel.maxVoltage m)))
          (AbstractMotor.moveVoltage (Num.to_int16 (- v * SkidSteerModel.maxVoltage m)))).
Proof.
  intros v.
  pose proof (arcadeInput_unit input ithreshold) as Hv. fold v in Hv.
  split; [|intros _].
  - destruct (arcade_without_clamp m input 0 ithreshold) as [_ E].
    rewrite E. clear E.
    unfold SkidSteerModel.arcadeOutputs. rewrite arcadeInput_zero. fold v.
    change (Qle_bool 0 0) with true.
    destruct (Qle_bool 0 v) eqn:Ev; cbn [fst snd]; f_equal; f_equal;
      apply to_int16_Qeq; apply Qmult_comp; try reflexivity.
    + apply Qle_bool_iff in Ev. unfold Num.copysign.
      assert (Hn : Num.Qltb v 0 = false) by (apply Qltb_ge; exact Ev).
      rewrite Hn, max_abs_zero_r, Qabs_pos.
      * apply Qabs_pos. exact Ev.
      * apply Qabs_nonneg.
    + ring.
    + ring.
    + apply Qle_bool_false in Ev. unfold Num.copysign.
      assert (Hn : Num.Qltb v 0 = true) by (apply Qltb_lt; exact Ev).
      rewrite Hn, max_abs_zero_r, Qabs_pos by apply Qabs_nonneg.
      rewrite Qabs_neg by lra. ring.
  - destruct (arcade_without_clamp m 0 input ithreshold) as [_ E].
    rewrite E. clear E.
    unfold SkidSteerModel.arcadeOutputs. rewrite arcadeInput_zero. fold v.
    change (Qle_bool 0 0) with true.
    assert (Hc : Num.copysign (Num.max (Qabs 0) (Qabs v)) 0 == Qabs v).
    { unfold Num.copysign. change (Num.Qltb 0 0) with false. cbv iota.
      rewrite max_abs_zero_l. apply Qabs_pos, Qabs_nonneg. }
    destruct (Qle_bool 0 v) eqn:Ev; cbn [fst snd]; f_equal; f_equal;
      apply to_int16_Qeq; apply Qmult_comp; try reflexivity.
    + apply Qle_bool_iff in Ev. rewrite Hc. apply Qabs_pos. exact Ev.
    + ring.
    + ring.
    + apply Qle_bool_false in Ev. rewrite Hc. apply Qabs_neg. lra.
Qed.

Lemma arcade_straight_and_in_place_witness :
  SkidSteerModel.arcade Scenario.robot 0 (1#2) (1#10) =
  SkidSteerModel.send Scenario.robot
    (AbstractMotor.moveVoltage 6000) (AbstractMotor.moveVoltage (-6000)).
Proof.
  apply (arcade_straight_and_in_place Scenario.robot (1#2) (1#10)). discriminate.
Defined.

(** ** Further properties of the controller *)

Section ControllerFurther.

Import ChassisControllerPID Lifecycle.

Context {M : Type} {chassisModel : ChassisModel M}
        {pidBehaviour : IterativePosPIDController.Behaviour}
        {doubleQuotient : DoubleQuotient}.

Local Abbreviation pid_settled := IterativePosPIDController.isSettled.
Local Abbreviation pid_disabled := IterativePosPIDController.isDisabled.
Local Abbreviation pid_target := IterativePosPIDController.getTarget.
Local Abbreviation pid_calls := IterativePosPIDController.calls.

(** X7.  After [moveDistanceAsync], after [turnAngleAsync] and after
    [waitUntilSettled] has returned, the PIDs that are enabled are those of
    the mode: distance and angle in [distance], turn in [angle], none in
    [none]. *)
Theorem enabled_pids_are_those_of_the_mode (c : t M) :
  (forall d, pidsMatchMode (moveDistanceAsync c d) = true)
  /\ (forall a, pidsMatchMode (turnAngleAsync c a) = true)
  /\ (forall x, pidsMatchMode (moveDistanceAsync_double c x) = true
                /\ pidsMatchMode (turnAngleAsync_double c x) = true)
  /\ (forall world world' c',
        waitUntilSettled world c = Some (world', c') -> pidsMatchMode c' = true).
Proof.
  split; [reflexivity|]. split; [reflexivity|]. split; [split; reflexivity|].
  intros world world' c'. unfold waitUntilSettled.
  destruct (waitUntilSettled_while _ world c) as [[w1 c1]|]; [|discriminate].
  intros R; inversion R; subst. reflexivity.
Qed.

(** X8.  A pass of the loop changes no target, no enabled flag, not the
    mode, not [doneLooping]; and when the enabled PIDs are those of the
    mode, it steps no PID that is disabled. *)
Theorem loop_pass_keeps_configuration (l : LoopLocals) (c : t M) :
  let c' := snd (loop_body l c) in
  (pid_target (distancePid c') = pid_target (distancePid c)
   /\ pid_target (anglePid c') = pid_target (anglePid c)
   /\ pid_target (turnPid c') = pid_target (turnPid c))
  /\ (pid_disabled (distancePid c') = pid_disabled (distancePid c)
      /\ pid_disabled (anglePid c') = pid_disabled (anglePid c)
      /\ pid_disabled (turnPid c') = pid_disabled (turnPid c))
  /\ (mode c' = mode c /\ doneLooping c' = doneLooping c
      /\ pidsMatchMode c' = pidsMatchMode c)
  /\ (pidsMatchMode c = true ->
      (pid_disabled (distancePid c) = true -> distancePid c' = distancePid c)
      /\ (pid_disabled (anglePid c) = true -> anglePid c' = anglePid c)
      /\ (pid_disabled (turnPid c) = true -> turnPid c' = turnPid c)).
Proof.
  intros c'. subst c'.
  destruct c as [md dp tp ap sc gr nt dl nm dt mo tk].
  unfold loop_body, pidsMatchMode. cbn [doneLooping mode newMovement].
  destruct dl; cbn [negb].
  - cbn. repeat split; auto.
  - destruct (negb (modeType_eqb mo (pastMode l)) || nm); destruct mo; cbn.
    all: split; [repeat split|].
    all: split; [repeat split|].
    all: split; [repeat split|].
    all: destruct (pid_disabled dp), (pid_disabled ap), (pid_disabled tp); cbn.
    all: intros Hinv; try discriminate Hinv.
    all: repeat split; intros; try discriminate; auto.
Qed.

(** An idle loop adds nothing to what the world does. *)
Lemma idle_loop_is_world_alone
  (world : list (World M)) (notified : bool) (l : LoopLocals) (c : t M) :
  (forall w, In w world -> forall x, doneLooping (interfere w x) = doneLooping x) ->
  doneLooping c = true ->
  loop_from world notified l c = (l, worldAlone world notified c).
Proof.
  revert notified c. induction world as [|w world IH]; intros notified c Hw Hd;
    cbn [loop_from worldAlone];
    destruct (negb (dtorCalled c) && negb notified); try reflexivity;
    rewrite (loop_body_idle l c Hd); [reflexivity|].
  apply IH.
  - intros w' Hin. apply Hw. right. exact Hin.
  - rewrite (Hw w (or_introl eq_refl)). exact Hd.
Qed.

(** X9.  While [doneLooping] is set and the world leaves it set, [loop]
    contributes nothing: its locals stay as they are and the controller is
    what the world alone makes of it, so no PID is stepped and nothing is
    sent to the model by the loop. *)
Theorem idle_loop_leaves_controller_to_world
  (world : list (World M)) (notified : bool) (l : LoopLocals) (c : t M) :
  (forall w, In w world -> forall x, doneLooping (interfere w x) = doneLooping x) ->
  doneLooping c = true ->
  loop_from world notified l c = (l, worldAlone world notified c).
Proof. exact (idle_loop_is_world_alone world notified l c). Qed.

(** X10.  Teardown.  The destructor sets [dtorCalled] and drops the task;
    when it runs, or the task is notified, during a delay of [loop], the
    loop makes no further pass whatever the world holds next: the
    controller stays as that delay left it. *)
Theorem loop_ends_after_teardown
  (world : list (World M)) (l : LoopLocals) (c : t M) :
  dtorCalled c = false ->
  let l' := fst (loop_body l c) in
  let c' := snd (loop_body l c) in
  (dtorCalled (destructor c') = true /\ task (destructor c') = None)
  /\ loop_from (destroyed :: world) false l c = (l', destructor c')
  /\ (forall w, notifyTake w = true ->
                loop_from (w :: world) false l c = (l', interfere w c'))
  /\ (forall w, dtorCalled (interfere w c') = true ->
                loop_from (w :: world) false l c = (l', interfere w c')).
Proof.
  intros Hd l' c'. split; [split; reflexivity|].
  split; [|split].
  - rewrite loop_from_pass by exact Hd. apply loop_from_ends. left. reflexivity.
  - intros w Hn. rewrite loop_from_pass by exact Hd. apply loop_from_ends.
    right. exact Hn.
  - intros w Hw. rewrite loop_from_pass by exact Hd. apply loop_from_ends.
    left. exact Hw.
Qed.

(** X11.  A new movement is measured from where the wheels are when the
    loop takes it up: the pass that follows [moveDistanceAsync] or
    [turnAngleAsync] takes the sensor values as baseline and clears
    [newMovement], whatever baseline and [pastMode] the loop held. *)
Theorem new_movement_takes_fresh_baseline (l : LoopLocals) (c : t M) :
  (forall d,
     let pass := loop_body l (moveDistanceAsync c d) in
     fst pass = {| encStartVals := getSensorVals (model c); pastMode := distance |}
     /\ newMovement (snd pass) = false /\ doneLooping (snd pass) = false)
  /\ (forall a,
        let pass := loop_body l (turnAngleAsync c a) in
        fst pass = {| encStartVals := getSensorVals (model c); pastMode := angle |}
        /\ newMovement (snd pass) = false /\ doneLooping (snd pass) = false).
Proof.
  split; intros x pass; subst pass; unfold loop_body;
    cbn [doneLooping moveDistanceAsync turnAngleAsync set_newMovement set_doneLooping
         negb newMovement];
    rewrite orb_true_r; cbn; repeat split.
Qed.

(** X12.  While the mode does not change, [waitUntilSettled] returns only on
    the settlement of that mode: if every poll finds the mode [distance],
    it returns at a poll at which the distance and the angle PID are both
    settled; if every poll finds [angle], at one at which the turn PID is
    settled. *)
Theorem wait_in_stable_mode_returns_on_its_settlement
  (world : list (World M)) (c : t M) world' c' :
  waitUntilSettled world c = Some (world', c') ->
  ((forall x, In x (polls world c) -> mode x = distance) ->
   exists c1, In c1 (polls world c) /\ c' = afterSettling c1
              /\ pid_settled (distancePid c1) && pid_settled (anglePid c1) = true)
  /\ ((forall x, In x (polls world c) -> mode x = angle) ->
      exists c1, In c1 (polls world c) /\ c' = afterSettling c1
                 /\ pid_settled (turnPid c1) = true).
Proof.
  unfold waitUntilSettled. cbn [waitUntilSettled_while].
  intros R. split; intros Hm; rewrite (Hm c (polls_self world c)) in R.
  - destruct (waitForDistanceSettled world c) as [[[[] w1] c1]|] eqn:E;
      try discriminate R.
    + inversion R; subst.
      apply waitForDistanceSettled_returns in E. destruct E as (_ & Hin & Ht & _).
      exists c1. split; [exact Hin|]. split; [reflexivity | apply Ht; reflexivity].
    + exfalso. apply waitForDistanceSettled_returns in E.
      destruct E as (_ & Hin & _ & Hf). destruct Hf as [_ Hf]; [reflexivity|].
      rewrite (Hm c1 Hin) in Hf. discriminate Hf.
  - destruct (waitForAngleSettled world c) as [[[[] w1] c1]|] eqn:E;
      try discriminate R.
    + inversion R; subst.
      apply waitForAngleSettled_returns in E. destruct E as (_ & Hin & Ht & _).
      exists c1. split; [exact Hin|]. split; [reflexivity | apply Ht; reflexivity].
    + exfalso. apply waitForAngleSettled_returns in E.
      destruct E as (_ & Hin & _ & Hf). destruct Hf as [_ Hf]; [reflexivity|].
      rewrite (Hm c1 Hin) in Hf. discriminate Hf.
Qed.

Lemma waitUntilSettled_while_eq (n : nat) (world : list (World M)) (c : t M) :
  waitUntilSettled_while (S n) world c =
  match mode c with
  | distance =>
      match waitForDistanceSettled world c with
      | Some (true, world', c') => Some (world', c')
      | Some (false, world', c') => waitUntilSettled_while n world' c'
      | None => None
      end
  | angle =>
      match waitForAngleSettled world c with
      | Some (true, world', c') => Some (world', c')
      | Some (false, world', c') => waitUntilSettled_while n world' c'
      | None => None
      end
  | none => Some (world, c)
  end.
Proof. reflexivity. Qed.

(** X13.  A poll that finds the PIDs waited for unsettled costs exactly one
    delay when the mode is the same after it: [waitUntilSettled] goes on as
    if called after the delay. *)
Theorem unsettled_poll_costs_one_delay
  (w : World M) (world : list (World M)) (c : t M) :
  (mode c = distance -> mode (interfere w c) = distance ->
   pid_settled (distancePid c) && pid_settled (anglePid c) = false ->
   waitUntilSettled (w :: world) c = waitUntilSettled world (interfere w c))
  /\ (mode c = angle -> mode (interfere w c) = angle ->
      pid_settled (turnPid c) = false ->
      waitUntilSettled (w :: world) c = waitUntilSettled world (interfere w c)).
Proof.
  split; intros Hm Hm2 Hs; unfold waitUntilSettled;
    change (length (w :: world)) with (S (length world));
    rewrite (waitUntilSettled_while_eq (S (length world)) (w :: world) c),
            (waitUntilSettled_while_eq (length world) world (interfere w c));
    rewrite Hm, Hm2.
  - rewrite (waitForDistanceSettled_eq (w :: world) c), Hs, Hm. cbn [modeType_eqb].
    destruct (waitForDistanceSettled world (interfere w c)) as [[[[] w1] c1]|] eqn:E;
      try reflexivity.
    apply waitForDistanceSettled_again_slept in E; [|exact Hm2].
    rewrite (waitUntilSettled_while_passes (S (length world)) (length world) w1 c1)
      by lia.
    reflexivity.
  - rewrite (waitForAngleSettled_eq (w :: world) c), Hs, Hm. cbn [modeType_eqb].
    destruct (waitForAngleSettled world (interfere w c)) as [[[[] w1] c1]|] eqn:E;
      try reflexivity.
    apply waitForAngleSettled_again_slept in E; [|exact Hm2].
    rewrite (waitUntilSettled_while_passes (S (length world)) (length world) w1 c1)
      by lia.
    reflexivity.
Qed.

(** X14.  Once [waitUntilSettled] has returned the controller is at rest: a
    second [waitUntilSettled] returns at once, without a delay, and a pass
    of the loop does nothing. *)
Theorem settled_controller_is_at_rest (world : list (World M)) (c : t M) world' c' :
  waitUntilSettled world c = Some (world', c') ->
  (forall rest, waitUntilSettled rest c' = Some (rest, afterSettling c'))
  /\ (forall l, loop_body l c' = (l, c'))
  /\ (forall rest notified l,
        (forall w, In w rest -> forall x, doneLooping (interfere w x) = doneLooping x) ->
        loop_from rest notified l c' = (l, worldAlone rest notified c')).
Proof.
  unfold waitUntilSettled at 1.
  destruct (waitUntilSettled_while _ world c) as [[w1 c1]|]; [|discriminate].
  intros R; inversion R; subst.
  split; [reflexivity|]. split; [reflexivity|].
  intros rest notified l Hw. apply idle_loop_is_world_alone.
  - exact Hw.
  - reflexivity.
Qed.

End ControllerFurther.

Lemma loop_pass_keeps_configuration_witness :
  ChassisControllerPID.turnPid
    (snd (ChassisControllerPID.loop_body (pidBehaviour := Scenario.proportional)
            Scenario.localsAtStart
            (ChassisControllerPID.moveDistanceAsync Scenario.controller
               {| convert_meter := 6 |})))
  = ChassisControllerPID.turnPid
      (ChassisControllerPID.moveDistanceAsync Scenario.controller {| convert_meter := 6 |}).
Proof.
  apply (loop_pass_keeps_configuration (pidBehaviour := Scenario.proportional)
           Scenario.localsAtStart
           (ChassisControllerPID.moveDistanceAsync Scenario.controller
              {| convert_meter := 6 |}));
    reflexivity.
Defined.

Lemma idle_loop_leaves_controller_to_world_witness :
  ChassisControllerPID.loop_from (pidBehaviour := Scenario.proportional)
    [Scenario.quiet; Scenario.quiet] false Scenario.localsAtStart Scenario.controller
  = (Scenario.localsAtStart, Scenario.controller).
Proof.
  apply (idle_loop_leaves_controller_to_world (pidBehaviour := Scenario.proportional)
           [Scenario.quiet; Scenario.quiet] false Scenario.localsAtStart
           Scenario.controller).
  - intros w [<- | [<- | []]] x; reflexivity.
  - reflexivity.
Defined.

Lemma loop_ends_after_teardown_witness :
  ChassisControllerPID.loop_from (pidBehaviour := Scenario.proportional)
    [Lifecycle.destroyed; Scenario.clientTurns 90] false
    Scenario.localsAtStart Scenario.controller
  = (Scenario.localsAtStart, Lifecycle.destructor Scenario.controller).
Proof.
  destruct (loop_ends_after_teardown (pidBehaviour := Scenario.proportional)
              [Scenario.clientTurns 90] Scenario.localsAtStart Scenario.controller)
    as (_ & E & _).
  - reflexivity.
  - exact E.
Defined.

Lemma wait_in_stable_mode_returns_on_its_settlement_witness :
  let pid := Scenario.strict in
  let world := [Scenario.loopPasses pid Scenario.localsAtStart 0 0;
                Scenario.loopPasses pid Scenario.localsMoving 12 12] in
  let c0 := ChassisControllerPID.moveDistanceAsync Scenario.controller
              {| convert_meter := 6 |} in
  exists c1,
    In c1 (ChassisControllerPID.polls world c0)
    /\ IterativePosPIDController.isSettled (Behaviour := pid)
         (ChassisControllerPID.distancePid c1)
       && IterativePosPIDController.isSettled (Behaviour := pid)
            (ChassisControllerPID.anglePid c1) = true.
Proof.
  intros pid world c0.
  pose (c2 := ChassisControllerPID.interfere
                (Scenario.loopPasses pid Scenario.localsMoving 12 12)
                (ChassisControllerPID.interfere
                   (Scenario.loopPasses pid Scenario.localsAtStart 0 0) c0)).
  assert (E : ChassisControllerPID.waitUntilSettled (pidBehaviour := pid) world c0
              = Some ([], ChassisControllerPID.afterSettling c2))
    by (vm_compute; reflexivity).
  destruct (wait_in_stable_mode_returns_on_its_settlement (pidBehaviour := pid)
              world c0 _ _ E) as [Hd _].
  destruct Hd as (c1 & Hin & _ & Hs).
  - intros x [<- | [<- | [<- | []]]]; vm_compute; reflexivity.
  - exists c1. split; assumption.
Defined.

Lemma unsettled_poll_costs_one_delay_witness :
  let c0 := ChassisControllerPID.moveDistanceAsync Scenario.controller
              {| convert_meter := 6 |} in
  ChassisControllerPID.waitUntilSettled (pidBehaviour := Scenario.strict)
    [Scenario.quiet; Scenario.clientTurns 90] c0
  = ChassisControllerPID.waitUntilSettled (pidBehaviour := Scenario.strict)
      [Scenario.clientTurns 90] (ChassisControllerPID.interfere Scenario.quiet c0).
Proof.
  intros c0.
  destruct (unsettled_poll_costs_one_delay (pidBehaviour := Scenario.strict)
              Scenario.quiet [Scenario.clientTurns 90] c0) as [Hd _].
  apply Hd; reflexivity.
Defined.

Lemma settled_controller_is_at_rest_witness :
  let pid := Scenario.strict in
  let world := [Scenario.loopPasses pid Scenario.localsAtStart 0 0;
                Scenario.loopPasses pid Scenario.localsMoving 12 12] in
  let c0 := ChassisControllerPID.moveDistanceAsync Scenario.controller
              {| convert_meter := 6 |} in
  exists c',
    ChassisControllerPID.waitUntilSettled (pidBehaviour := pid) world c0 = Some ([], c')
    /\ ChassisControllerPID.loop_body (pidBehaviour := pid) Scenario.localsMoving c'
       = (Scenario.localsMoving, c').
Proof.
  intros pid world c0.
  pose (c2 := ChassisControllerPID.interfere
                (Scenario.loopPasses pid Scenario.localsMoving 12 12)
                (ChassisControllerPID.interfere
                   (Scenario.loopPasses pid Scenario.localsAtStart 0 0) c0)).
  assert (E : ChassisControllerPID.waitUntilSettled (pidBehaviour := pid) world c0
              = Some ([], ChassisControllerPID.afterSettling c2))
    by (vm_compute; reflexivity).
  exists (ChassisControllerPID.afterSettling c2). split; [exact E|].
  destruct (settled_controller_is_at_rest (pidBehaviour := pid) world c0 _ _ E)
    as (_ & Hidle & _).
  apply Hidle.
Defined.

(** ** Further properties of construction and of the builder *)

(** X15.  Constructing a controller on a skid-steer model configures both
    motors alike, with the gearset and with degrees as encoder units, and
    sends neither a motion command: the commands the motors received, the
    sensors and the limits are as before. *)
Theorem construction_configures_without_moving
  (defaults : ChassisControllerPID.MemberDefaults) (imodel : SkidSteerModel.t)
  (idistanceController iturnController iangleController : IterativePosPIDController.t)
  (igearset : AbstractMotor.GearsetRatioPair) (iscales : ChassisScales)
  (c : ChassisControllerPID.t SkidSteerModel.t) :
  ChassisControllerPID.ChassisControllerPID defaults imodel
    idistanceController iturnController iangleController igearset iscales
  = ChassisControllerPID.built c ->
  let configuration :=
    [AbstractMotor.setEncoderUnits AbstractMotor.degrees;
     AbstractMotor.setGearing (AbstractMotor.internalGearset igearset)] in
  let m := ChassisControllerPID.model c in
  (SkidSteerModel.leftSideMotor m = configuration ++ SkidSteerModel.leftSideMotor imodel
   /\ SkidSteerModel.rightSideMotor m = configuration ++ SkidSteerModel.rightSideMotor imodel)
  /\ (AbstractMotor.commands (SkidSteerModel.leftSideMotor m)
        = AbstractMotor.commands (SkidSteerModel.leftSideMotor imodel)
      /\ AbstractMotor.commands (SkidSteerModel.rightSideMotor m)
           = AbstractMotor.commands (SkidSteerModel.rightSideMotor imodel))
  /\ (SkidSteerModel.leftSensor m = SkidSteerModel.leftSensor imodel
      /\ SkidSteerModel.rightSensor m = SkidSteerModel.rightSensor imodel
      /\ SkidSteerModel.maxVelocity m = SkidSteerModel.maxVelocity imodel
      /\ SkidSteerModel.maxVoltage m = SkidSteerModel.maxVoltage imodel).
Proof.
  unfold ChassisControllerPID.ChassisControllerPID.
  destruct (Qeq_bool (AbstractMotor.ratio igearset) 0); [discriminate|].
  intros E; inversion E; subst. cbn. repeat split.
Qed.

Lemma construction_configures_without_moving_witness :
  AbstractMotor.commands
    (SkidSteerModel.leftSideMotor (ChassisControllerPID.model Scenario.controller))
  = AbstractMotor.commands (SkidSteerModel.leftSideMotor Scenario.robot).
Proof.
  apply (construction_configures_without_moving Scenario.defaults Scenario.robot
           (Scenario.pidOf 1) (Scenario.pidOf 1) (Scenario.pidOf 1)
           (Scenario.directDrive 1) Scenario.scalesTwo Scenario.controller).
  reflexivity.
Defined.

Section BuilderFurther.

Context (xDriveOps : ChassisModel XDriveModel).
Context (getEncoder : AbstractMotor.t -> Q).
Context (toUnderlyingType : AbstractMotor.gearset -> Q).
Context (defaults : ChassisControllerPID.MemberDefaults).

Local Abbreviation build := (ChassisControllerBuilder.build xDriveOps defaults).
Local Abbreviation withMotors := (ChassisControllerBuilder.withMotors getEncoder).
Local Abbreviation withMotors_xDrive := (ChassisControllerBuilder.withMotors_xDrive getEncoder).
Local Abbreviation withGearset := (ChassisControllerBuilder.withGearset toUnderlyingType).
Local Abbreviation pid_gains := IterativePosPIDController.gains.
Local Abbreviation pid_filter := IterativePosPIDController.derivativeFilter.

(** X16.  The errors of [build].  Without motors it throws
    [std::runtime_error] and leaves the builder as it is, whatever else was
    configured.  With motors and gains and a gear ratio of 0 the exception
    of the controller's constructor comes through, the filters having been
    moved out of the builder all the same. *)
Theorem build_error_outcomes (b : ChassisControllerBuilder.t) :
  (ChassisControllerBuilder.hasMotors b = false ->
   build b =
     (b, ChassisControllerBuilder.buildThrew
           (runtime_error "ChassisControllerBuilder: No motors given.")))
  /\ (ChassisControllerBuilder.hasMotors b = true ->
      ChassisControllerBuilder.hasGains b = true ->
      AbstractMotor.ratio (ChassisControllerBuilder.gearset b) == 0 ->
      build b =
        (ChassisControllerBuilder.filtersMoved b,
         ChassisControllerBuilder.buildThrew
           (invalid_argument ChassisControllerPID.ratio_is_zero_message))).
Proof.
  unfold ChassisControllerBuilder.build. split.
  - intros Hm. rewrite Hm. reflexivity.
  - intros Hm Hg Hr. rewrite Hm, Hg. cbn [negb].
    unfold ChassisControllerBuilder.buildCCPID, ChassisControllerPID.ChassisControllerPID.
    apply Qeq_bool_iff in Hr. rewrite Hr. reflexivity.
Qed.

(** X17.  After [withGains] of two arguments the controller [build] returns
    has the first as gains of its distance controller and the second as
    gains of both its turn and its angle controller. *)
Theorem withGains_of_two_shares_turn_gains
  (b : ChassisControllerBuilder.t)
  (idistanceGains iturnGains : IterativePosPIDController.Gains) b' c :
  build (ChassisControllerBuilder.withGains2 b idistanceGains iturnGains)
  = (b', ChassisControllerBuilder.builtPID c) ->
  pid_gains (ChassisControllerPID.distancePid c) = idistanceGains
  /\ pid_gains (ChassisControllerPID.turnPid c) = iturnGains
  /\ pid_gains (ChassisControllerPID.anglePid c) = iturnGains.
Proof.
  unfold ChassisControllerBuilder.build, ChassisControllerBuilder.withGains2.
  cbn [ChassisControllerBuilder.hasMotors ChassisControllerBuilder.hasGains
       ChassisControllerBuilder.withGains].
  destruct (ChassisControllerBuilder.hasMotors b); cbn [negb]; [|discriminate].
  unfold ChassisControllerBuilder.buildCCPID, ChassisControllerPID.ChassisControllerPID.
  destruct (Qeq_bool _ 0); intros E; inversion E; subst.
  repeat split.
Qed.

(** X18.  Sensors given with [withSensors] are the sensors of the model,
    whether [withMotors] is called before or after; without [withSensors]
    the sensors are the encoders of the motors given last (of the two top
    motors in the x-drive layout). *)
Theorem user_sensors_win_in_either_order
  (b : ChassisControllerBuilder.t) (ileft iright : Q)
  (lm rm tl tr br bl : AbstractMotor.t) :
  let sensors x := (ChassisControllerBuilder.leftSensor x,
                    ChassisControllerBuilder.rightSensor x) in
  sensors (withMotors (ChassisControllerBuilder.withSensors b ileft iright) lm rm)
    = (Some ileft, Some iright)
  /\ sensors (ChassisControllerBuilder.withSensors (withMotors b lm rm) ileft iright)
       = (Some ileft, Some iright)
  /\ sensors (withMotors_xDrive (ChassisControllerBuilder.withSensors b ileft iright)
                tl tr br bl)
       = (Some ileft, Some iright)
  /\ ChassisControllerBuilder.makeSkidSteerModel
       (withMotors (ChassisControllerBuilder.withSensors b ileft iright) lm rm)
     = ChassisControllerBuilder.makeSkidSteerModel
         (ChassisControllerBuilder.withSensors (withMotors b lm rm) ileft iright)
  /\ (ChassisControllerBuilder.sensorsSetByUser b = false ->
      sensors (withMotors b lm rm) = (Some (getEncoder lm), Some (getEncoder rm))
      /\ sensors (withMotors_xDrive b tl tr br bl)
         = (Some (getEncoder tl), Some (getEncoder tr))
      /\ sensors (withMotors (withMotors_xDrive b tl tr br bl) lm rm)
         = (Some (getEncoder lm), Some (getEncoder rm))).
Proof.
  intros sensors.
  split; [reflexivity|]. split; [reflexivity|]. split; [reflexivity|].
  split; [reflexivity|].
  intros Hs. unfold sensors. cbn. rewrite Hs. repeat split.
Qed.

(** X19.  A maximum velocity given with [withMaxVelocity] is kept, whether
    [withGearset] is called before or after; without it [withGearset]
    sets the maximum velocity to the value of the gearset.  The gearset is
    the one given either way. *)
Theorem user_max_velocity_wins_in_either_order
  (b : ChassisControllerBuilder.t) (v : Q) (g : AbstractMotor.GearsetRatioPair) :
  let after_before :=
    withGearset (ChassisControllerBuilder.withMaxVelocity b v) g in
  let before_after :=
    ChassisControllerBuilder.withMaxVelocity (withGearset b g) v in
  (ChassisControllerBuilder.maxVelocity after_before = v
   /\ ChassisControllerBuilder.gearset after_before = g)
  /\ (ChassisControllerBuilder.maxVelocity before_after = v
      /\ ChassisControllerBuilder.gearset before_after = g)
  /\ after_before = before_after
  /\ (ChassisControllerBuilder.maxVelSetByUser b = false ->
      ChassisControllerBuilder.maxVelocity (withGearset b g)
      = toUnderlyingType (AbstractMotor.internalGearset g)).
Proof.
  intros after_before before_after. repeat split.
  cbn. intros E. rewrite E. reflexivity.
Qed.

(** X20.  A builder gives its derivative filters away: the first
    [ChassisControllerPID] built holds the filters of the builder (turn and
    angle exchanged), the builder [build] leaves holds none, and a second
    controller built from it has the same gains and no filter. *)
Theorem second_build_has_no_filters (b : ChassisControllerBuilder.t) :
  ChassisControllerBuilder.hasMotors b = true ->
  ChassisControllerBuilder.hasGains b = true ->
  ~ AbstractMotor.ratio (ChassisControllerBuilder.gearset b) == 0 ->
  exists b1 c1 b2 c2,
    build b = (b1, ChassisControllerBuilder.builtPID c1)
    /\ build b1 = (b2, ChassisControllerBuilder.builtPID c2)
    /\ (pid_filter (ChassisControllerPID.distancePid c1)
          = ChassisControllerBuilder.distanceFilter b
        /\ pid_filter (ChassisControllerPID.turnPid c1)
             = ChassisControllerBuilder.angleFilter b
        /\ pid_filter (ChassisControllerPID.anglePid c1)
             = ChassisControllerBuilder.turnFilter b)
    /\ (ChassisControllerBuilder.distanceFilter b1 = None
        /\ ChassisControllerBuilder.turnFilter b1 = None
        /\ ChassisControllerBuilder.angleFilter b1 = None)
    /\ (pid_filter (ChassisControllerPID.distancePid c2) = None
        /\ pid_filter (ChassisControllerPID.turnPid c2) = None
        /\ pid_filter (ChassisControllerPID.anglePid c2) = None)
    /\ (pid_gains (ChassisControllerPID.distancePid c2)
          = pid_gains (ChassisControllerPID.distancePid c1)
        /\ pid_gains (ChassisControllerPID.turnPid c2)
             = pid_gains (ChassisControllerPID.turnPid c1)
        /\ pid_gains (ChassisControllerPID.anglePid c2)
             = pid_gains (ChassisControllerPID.anglePid c1)).
Proof.
  intros Hm Hg Hr.
  assert (Hz : Qeq_bool (AbstractMotor.ratio (ChassisControllerBuilder.gearset b)) 0 = false).
  { destruct (Qeq_bool _ 0) eqn:E; [|reflexivity].
    apply Qeq_bool_iff in E. contradiction. }
  unfold ChassisControllerBuilder.build. rewrite Hm, Hg. cbn [negb].
  unfold ChassisControllerBuilder.buildCCPID at 1.
  unfold ChassisControllerPID.ChassisControllerPID. rewrite Hz.
  do 4 eexists. split; [reflexivity|].
  cbn [ChassisControllerBuilder.hasMotors ChassisControllerBuilder.hasGains
       ChassisControllerBuilder.filtersMoved].
  rewrite Hm, Hg. cbn [negb].
  unfold ChassisControllerBuilder.buildCCPID, ChassisControllerPID.ChassisControllerPID.
  cbn [ChassisControllerBuilder.gearset ChassisControllerBuilder.filtersMoved].
  rewrite Hz. split; [reflexivity|]. cbn. repeat split.
Qed.

(** X21.  [startThread] starts the loop thread once: after it the task is
    set and a second call changes nothing; the [ChassisControllerPID] that
    [build] returns has its thread started. *)
Theorem thread_is_started_once
  {M : Type} (c : ChassisControllerPID.t M) (b b' : ChassisControllerBuilder.t)
  (built : ChassisControllerPID.t BuiltModel) :
  ChassisControllerPID.task (ChassisControllerPID.startThread c)
    = Some ChassisControllerPID.thread_on_this
  /\ ChassisControllerPID.startThread (ChassisControllerPID.startThread c)
     = ChassisControllerPID.startThread c
  /\ (build b = (b', ChassisControllerBuilder.builtPID built) ->
      ChassisControllerPID.task built = Some ChassisControllerPID.thread_on_this).
Proof.
  split; [|split].
  - unfold ChassisControllerPID.startThread.
    destruct (ChassisControllerPID.task c) as [[]|] eqn:E; [exact E | reflexivity].
  - unfold ChassisControllerPID.startThread.
    destruct (ChassisControllerPID.task c) as [[]|] eqn:E; [rewrite E|]; reflexivity.
  - unfold ChassisControllerBuilder.build.
    destruct (ChassisControllerBuilder.hasMotors b); cbn [negb]; [|discriminate].
    destruct (ChassisControllerBuilder.hasGains b); [|discriminate].
    unfold ChassisControllerBuilder.buildCCPID, ChassisControllerPID.ChassisControllerPID.
    destruct (Qeq_bool _ 0); intros E; inversion E; subst. reflexivity.
Qed.

(** X22.  Without gains, in the x-drive layout too, [build] makes the
    integrated controller from the members [skidSteerMotors]: the motors
    given with the x-drive [withMotors] go to the model only, and the left
    and right motors handed on are those of an earlier skid-steer
    [withMotors], null if there was none. *)
Theorem integrated_build_takes_skid_steer_motors
  (b : ChassisControllerBuilder.t) (tl tr br bl : AbstractMotor.t) :
  ChassisControllerBuilder.hasGains b = false ->
  exists cci,
    build (withMotors_xDrive b tl tr br bl)
    = (withMotors_xDrive b tl tr br bl, ChassisControllerBuilder.builtIntegrated cci)
    /\ ChassisControllerBuilder.cci_leftControllerMotor cci
       = ChassisControllerBuilder.left (ChassisControllerBuilder.skidSteerMotors b)
    /\ ChassisControllerBuilder.cci_rightControllerMotor cci
       = ChassisControllerBuilder.right (ChassisControllerBuilder.skidSteerMotors b)
    /\ exists x, ChassisControllerBuilder.cci_model cci = xDrive x
                 /\ x_topLeftMotor x = tl /\ x_topRightMotor x = tr
                 /\ x_bottomRightMotor x = br /\ x_bottomLeftMotor x = bl.
Proof.
  intros Hg. unfold ChassisControllerBuilder.build.
  cbn [ChassisControllerBuilder.hasMotors ChassisControllerBuilder.hasGains
       ChassisControllerBuilder.withMotors_xDrive negb].
  rewrite Hg. eexists. split; [reflexivity|].
  split; [reflexivity|]. split; [reflexivity|].
  eexists. split; [reflexivity|]. repeat split.
Qed.

End BuilderFurther.

Lemma build_error_outcomes_witness :
  snd (ChassisControllerBuilder.build Scenario.inertXDrive Scenario.defaults
         (ChassisControllerBuilder.withGains Scenario.freshBuilder
            (Scenario.gainsOf 1) (Scenario.gainsOf 2) (Scenario.gainsOf 3)))
  = ChassisControllerBuilder.buildThrew
      (runtime_error "ChassisControllerBuilder: No motors given.")
  /\ snd (ChassisControllerBuilder.build Scenario.inertXDrive Scenario.defaults
            (ChassisControllerBuilder.withGearset (fun _ => 100)
               (ChassisControllerBuilder.withGains
                  (ChassisControllerBuilder.withMotors (fun _ => 0)
                     Scenario.freshBuilder [] [])
                  (Scenario.gainsOf 1) (Scenario.gainsOf 2) (Scenario.gainsOf 3))
               (Scenario.directDrive 0)))
     = ChassisControllerBuilder.buildThrew
         (invalid_argument ChassisControllerPID.ratio_is_zero_message).
Proof.
  split.
  - destruct (build_error_outcomes Scenario.inertXDrive Scenario.defaults
                (ChassisControllerBuilder.withGains Scenario.freshBuilder
                   (Scenario.gainsOf 1) (Scenario.gainsOf 2) (Scenario.gainsOf 3)))
      as [E _].
    rewrite E; reflexivity.
  - destruct (build_error_outcomes Scenario.inertXDrive Scenario.defaults
                (ChassisControllerBuilder.withGearset (fun _ => 100)
                   (ChassisControllerBuilder.withGains
                      (ChassisControllerBuilder.withMotors (fun _ => 0)
                         Scenario.freshBuilder [] [])
                      (Scenario.gainsOf 1) (Scenario.gainsOf 2) (Scenario.gainsOf 3))
                   (Scenario.directDrive 0)))
      as [_ E].
    rewrite E; reflexivity.
Defined.

Lemma withGains_of_two_shares_turn_gains_witness :
  exists b' c,
    ChassisControllerBuilder.build Scenario.inertXDrive Scenario.defaults
      (ChassisControllerBuilder.withGains2
         (ChassisControllerBuilder.withMotors (fun _ => 0) Scenario.freshBuilder [] [])
         (Scenario.gainsOf 1) (Scenario.gainsOf 2))
    = (b', ChassisControllerBuilder.builtPID c)
    /\ IterativePosPIDController.gains (ChassisControllerPID.turnPid c) = Scenario.gainsOf 2
    /\ IterativePosPIDController.gains (ChassisControllerPID.anglePid c) = Scenario.gainsOf 2.
Proof.
  destruct (ChassisControllerBuilder.build Scenario.inertXDrive Scenario.defaults
              (ChassisControllerBuilder.withGains2
                 (ChassisControllerBuilder.withMotors (fun _ => 0)
                    Scenario.freshBuilder [] [])
                 (Scenario.gainsOf 1) (Scenario.gainsOf 2)))
    as [b' [c | i | e]] eqn:E;
    [| vm_compute in E; discriminate E | vm_compute in E; discriminate E].
  exists b', c. split; [reflexivity|].
  apply (withGains_of_two_shares_turn_gains Scenario.inertXDrive Scenario.defaults
           _ _ _ b' c E).
Defined.

Lemma user_sensors_win_in_either_order_witness :
  ChassisControllerBuilder.leftSensor
    (ChassisControllerBuilder.withMotors (fun _ => 7) Scenario.freshBuilder [] [])
  = Some 7.
Proof.
  destruct (user_sensors_win_in_either_order (fun _ => 7) Scenario.freshBuilder 0 0
              [] [] [] [] [] []) as (_ & _ & _ & _ & H).
  destruct H as (E & _); [reflexivity|].
  exact (f_equal fst E).
Defined.

Lemma user_max_velocity_wins_in_either_order_witness :
  ChassisControllerBuilder.maxVelocity
    (ChassisControllerBuilder.withGearset (fun _ => 100) Scenario.freshBuilder
       (Scenario.directDrive 1))
  = 100.
Proof.
  apply (user_max_velocity_wins_in_either_order (fun _ => 100) Scenario.freshBuilder 0
           (Scenario.directDrive 1)).
  reflexivity.
Defined.

Lemma second_build_has_no_filters_witness :
  exists b1 c1 b2 c2,
    ChassisControllerBuilder.build Scenario.inertXDrive Scenario.defaults
      (ChassisControllerBuilder.withGains
         (ChassisControllerBuilder.withMotors (fun _ => 0) Scenario.freshBuilder [] [])
         (Scenario.gainsOf 1) (Scenario.gainsOf 2) (Scenario.gainsOf 3))
    = (b1, ChassisControllerBuilder.builtPID c1)
    /\ ChassisControllerBuilder.build Scenario.inertXDrive Scenario.defaults b1
       = (b2, ChassisControllerBuilder.builtPID c2)
    /\ IterativePosPIDController.derivativeFilter (ChassisControllerPID.distancePid c1)
       = Some 10%nat
    /\ IterativePosPIDController.derivativeFilter (ChassisControllerPID.distancePid c2)
       = None.
Proof.
  destruct (second_build_has_no_filters Scenario.inertXDrive Scenario.defaults
              (ChassisControllerBuilder.withGains
                 (ChassisControllerBuilder.withMotors (fun _ => 0)
                    Scenario.freshBuilder [] [])
                 (Scenario.gainsOf 1) (Scenario.gainsOf 2) (Scenario.gainsOf 3)))
    as (b1 & c1 & b2 & c2 & E1 & E2 & (F1 & _) & _ & (F2 & _) & _);
    [reflexivity | reflexivity | discriminate |].
  exists b1, c1, b2, c2. repeat (split; [assumption|]). assumption.
Defined.

Lemma thread_is_started_once_witness :
  exists b' c,
    ChassisControllerBuilder.build Scenario.inertXDrive Scenario.defaults
      (ChassisControllerBuilder.withGains
         (ChassisControllerBuilder.withMotors (fun _ => 0) Scenario.freshBuilder [] [])
         (Scenario.gainsOf 1) (Scenario.gainsOf 2) (Scenario.gainsOf 3))
    = (b', ChassisControllerBuilder.builtPID c)
    /\ ChassisControllerPID.task c = Some ChassisControllerPID.thread_on_this.
Proof.
  destruct (ChassisControllerBuilder.build Scenario.inertXDrive Scenario.defaults
              (ChassisControllerBuilder.withGains
                 (ChassisControllerBuilder.withMotors (fun _ => 0)
                    Scenario.freshBuilder [] [])
                 (Scenario.gainsOf 1) (Scenario.gainsOf 2) (Scenario.gainsOf 3)))
    as [b' [c | i | e]] eqn:E;
    [| vm_compute in E; discriminate E | vm_compute in E; discriminate E].
  exists b', c. split; [reflexivity|].
  destruct (thread_is_started_once Scenario.inertXDrive Scenario.defaults
              Scenario.controller
              (ChassisControllerBuilder.withGains
                 (ChassisControllerBuilder.withMotors (fun _ => 0)
                    Scenario.freshBuilder [] [])
                 (Scenario.gainsOf 1) (Scenario.gainsOf 2) (Scenario.gainsOf 3))
              b' c) as (_ & _ & H).
  exact (H E).
Defined.

Lemma integrated_build_takes_skid_steer_motors_witness :
  exists cci,
    snd (ChassisControllerBuilder.build Scenario.inertXDrive Scenario.defaults
           (ChassisControllerBuilder.withMotors_xDrive (fun _ => 0)
              Scenario.freshBuilder [] [] [] []))
    = ChassisControllerBuilder.builtIntegrated cci
    /\ ChassisControllerBuilder.cci_leftControllerMotor cci = None.
Proof.
  destruct (integrated_build_takes_skid_steer_motors Scenario.inertXDrive
              (fun _ => 0) Scenario.defaults Scenario.freshBuilder [] [] [] [])
    as (cci & E & El & _); [reflexivity|].
  exists cci. split; [rewrite E; reflexivity | exact El].
Defined.

Lemma enabled_pids_are_those_of_the_mode_witness :
  let pid := Scenario.strict in
  let world := [Scenario.loopPasses pid Scenario.localsAtStart 0 0;
                Scenario.loopPasses pid Scenario.localsMoving 12 12] in
  let c0 := ChassisControllerPID.moveDistanceAsync Scenario.controller
              {| convert_meter := 6 |} in
  exists c',
    ChassisControllerPID.waitUntilSettled (pidBehaviour := pid) world c0 = Some ([], c')
    /\ Lifecycle.pidsMatchMode c' = true.
Proof.
  intros pid world c0.
  pose (c2 := ChassisControllerPID.interfere
                (Scenario.loopPasses pid Scenario.localsMoving 12 12)
                (ChassisControllerPID.interfere
                   (Scenario.loopPasses pid Scenario.localsAtStart 0 0) c0)).
  assert (E : ChassisControllerPID.waitUntilSettled (pidBehaviour := pid) world c0
              = Some ([], ChassisControllerPID.afterSettling c2))
    by (vm_compute; reflexivity).
  exists (ChassisControllerPID.afterSettling c2). split; [exact E|].
  destruct (enabled_pids_are_those_of_the_mode
              (pidBehaviour := pid) (doubleQuotient := Scenario.unrounded) c0)
    as (_ & _ & _ & H).
  exact (H world [] _ E).
Defined.
